(** * RGB Wave firmware (ATtiny25): the light table and its fade/hold player

    A shallow embedding of [rgb.c].  The firmware walks the constant table
    [lightTab]; for every entry [sendrgbElement] fades the three PWM compare
    registers from the colour of the previous entry to the colour of the
    current one during [fadeTime] ticks and then waits [holdTime] ticks.

    The effect of the program is the sequence of writes to the compare
    registers and of calls to the busy-wait [delay_ten_us]; the embedding
    returns that sequence. *)

From Stdlib Require Import ZArith List Lia Bool.
Import ListNotations.
Local Open Scope Z_scope.

(** ** Machine integers

    avr-gcc gives [int] 16 bits and [unsigned char] 8 bits.  Every [int]
    operation of the source is written with its two's-complement wrap-around
    (what the generated code does), every [unsigned char] store with its
    reduction modulo 256. *)

Module Int16.

Definition INT_MAX : Z := 32767.
Definition INT_MIN : Z := -32768.

Definition wrap (z : Z) : Z := (z + 32768) mod 65536 - 32768.

Definition add (a b : Z) : Z := wrap (a + b).
Definition sub (a b : Z) : Z := wrap (a - b).
Definition neg (a : Z) : Z := wrap (- a).
(* C99 division truncates toward zero *)
Definition div (a b : Z) : Z := wrap (a ÷ b).

Definition in_range (z : Z) : Prop := INT_MIN <= z <= INT_MAX.

End Int16.

Module UChar.

Definition wrap (z : Z) : Z := z mod 256.

Definition in_range (z : Z) : Prop := 0 <= z <= 255.

End UChar.

(** ** The light table *)

Record rgbElement : Type := mkElement {
  fadeTime : Z;   (* int *)
  holdTime : Z;   (* int *)
  red : Z;        (* unsigned char *)
  green : Z;      (* unsigned char *)
  blue : Z        (* unsigned char *)
}.

Definition lightTab : list rgbElement := [
  mkElement     0   500   0   0   0;
  mkElement   500   500 255   0   0;
  mkElement   500   500   0 255   0;
  mkElement   500   500   0   0 255;
  mkElement   500   500   0 255 255;
  mkElement   500   500 255   0 255;
  mkElement   500   500 255 255   0;
  mkElement   500  2500 255 255 255;
  mkElement  7000  2500 255   0   0;
  mkElement  7000  2500   0 255   0;
  mkElement  7000  2500   0   0 255;
  mkElement  7000  2500 155  64   0;
  mkElement  7000  2500  64 255  64;
  mkElement  7000  2500   0  64 255;
  mkElement  7000  2500  64   0  64;
  mkElement  7000  1500 155   0   0;
  mkElement  7000  1500   0 255   0;
  mkElement  7000  1500   0   0 255;
  mkElement  7000  1500 140   0 240;
  mkElement  7000  1500 155 155   0;
  mkElement  7000  1500 155 255 255;
  mkElement  7000  1500 128 128 128;
  mkElement  7000  1500  48  48  58;
  mkElement  7000  1500   0   0   0;
  mkElement  2500  2500 155   0   0;
  mkElement  2500  2500 155 255   0;
  mkElement  2500  2500   0 255   0;
  mkElement  2500  2500   0 255 255;
  mkElement  2500  2500   0   0 255;
  mkElement  2500  2500 155   0 255;
  mkElement  2500     0   0   0   0;
  mkElement  2500  2500 155   0   0;
  mkElement  2500  2500 155 255   0;
  mkElement  2500  2500   0 255   0;
  mkElement  2500  2500   0 255 255;
  mkElement  2500  2500   0   0 255;
  mkElement  2500  2500 155   0 255;
  mkElement  2500     0   0   0   0;
  mkElement  2500  2500 154  32   0;
  mkElement  2500  2500 154 128   0;
  mkElement  2500  2500 154 240   0;
  mkElement  2500  2500 128 240   0;
  mkElement     0  2500   0   0   0;
  mkElement  2500  2500   0  16 255;
  mkElement  2500  2500   0 128 255;
  mkElement  2500  2500   0 240 128;
  mkElement  2500  2500  16  16 240;
  mkElement  2500  2500 140  16 240;
  mkElement  2500  2500  64   0 250;
  mkElement     0  2500  10  10  10;
  mkElement     0  2500   0   0   0;
  mkElement  2500  2500 140   0 240;
  mkElement  2500  2500  32   0 240;
  mkElement  2500  2500 128   0 128;
  mkElement  2500  2500 140   0  32;
  mkElement  2500     0   0   0  10;
  mkElement  2500     0   0   0   0;
  mkElement  1000  1000   0   0   0;
  mkElement  1000  1000  32   0   0;
  mkElement  1000  1000  64   0   0;
  mkElement     0  1000  96   0   0;
  mkElement  1000     0 128   0   0;
  mkElement  1000     0 160  32   0;
  mkElement  1000     0 192  64   0;
  mkElement  1000     0 124  96   0;
  mkElement     0  1000 155 128   0;
  mkElement  1000  1000   0 160   0;
  mkElement     0  1000   0 192   0;
  mkElement  1000  1000   0 224  32;
  mkElement  1000     0   0 255  64;
  mkElement  1000     0   0   0  96;
  mkElement  1000     0   0   0 128;
  mkElement  1000     0   0   0 160;
  mkElement  1000     0   0   0 192;
  mkElement  1000     0   0   0 224;
  mkElement  1000  1000   0   0 255;
  mkElement  1000     0   0   0   0;
  mkElement     0  1000   0   0 255;
  mkElement  1000  1000  32   0   0;
  mkElement  1000  1000  96   0   0;
  mkElement  1000  1000 160   0   0;
  mkElement  1000     0 255   0   0;
  mkElement  1000  1000   0  96   0;
  mkElement  1000  1000   0 160  32;
  mkElement  1000  1000   0 224  64;
  mkElement  1000  1000   0 255  96;
  mkElement  1000  1000   0   0 128;
  mkElement  1000  1000   0   0 160;
  mkElement  1000  1000   0  32 192;
  mkElement  1000  1000   0  64 224;
  mkElement  1000  1000   0  96 225;
  mkElement  1000  1000   0 128   0;
  mkElement  1000  1000   0 160   0;
  mkElement  1000  1000   0 192  32;
  mkElement  1000  1000   0 224  64;
  mkElement  1000  1000   0 255  96;
  mkElement  1000  1000   0   0 255;
  mkElement  1000  1000   0   0   0;
  mkElement     0     0   0   0   0
].

(** ** Results and effects

    A table read past the end of the array is undefined in C; the embedding
    reports it.  Loops whose counter can wrap are run with fuel. *)

Inductive result (A : Type) : Type :=
| Ok (a : A)
| OutOfFuel
| OutOfBounds.

Arguments Ok {A} a.
Arguments OutOfFuel {A}.
Arguments OutOfBounds {A}.

Definition bind {A B : Type} (c : result A) (k : A -> result B) : result B :=
  match c with
  | Ok a => k a
  | OutOfFuel => OutOfFuel
  | OutOfBounds => OutOfBounds
  end.

Notation "x <- c ;; k" := (bind c (fun x => k))
  (at level 61, c at next level, right associativity).

(** The PWM compare registers the player writes. *)
Inductive register : Type := OCR1A | OCR1B | OCR0A.

(** What the firmware does to the outside: it stores a value in a compare
    register, or it busy-waits in [delay_ten_us].  The calls of
    [initialize] and [teardown] are kept as single events, the registers
    they program being no concern of the player. *)
Inductive event : Type :=
| Write (r : register) (v : Z)      (* OCRxx = v *)
| Delay (us : Z)                    (* delay_ten_us(us) *)
| Initialize                        (* initialize() *)
| Teardown.                         (* teardown() *)

Definition trace : Type := list event.

Definition delay_ten_us (us : Z) : trace := [Delay us].

(** [lightTab[index]], read from program memory. *)
Definition pgm_read (tab : list rgbElement) (index : Z) : result rgbElement :=
  if index <? 0 then OutOfBounds
  else match nth_error tab (Z.to_nat index) with
       | Some e => Ok e
       | None => OutOfBounds
       end.

(** ** sendrgbElement

    The source keeps four variables per colour ([redTemp], [redTime],
    [redTimeInc], [redInc], and the same for green and blue) and treats the
    three colours by the same statements; the embedding keeps them in one
    record per colour. *)

Record colour : Type := mkColour {
  Temp : Z;      (* unsigned char redTemp *)
  Time : Z;      (* int redTime *)
  TimeInc : Z;   (* int redTimeInc *)
  Inc : Z        (* unsigned char redInc *)
}.

(* int redDelta = Red - redPrev; *)
Definition colourDelta (Target Prev : Z) : Z := Int16.sub Target Prev.

(* if (redDelta != 0) {
     redTime = (FadeTime / redDelta);
     if (redTime < 0) redTime = -redTime;
     redTime = redTime + 1;
   } *)
Definition colourTime (FadeTime Delta : Z) : Z :=
  if Delta =? 0 then 0
  else
    let t := Int16.div FadeTime Delta in
    let t := if t <? 0 then Int16.neg t else t in
    Int16.add t 1.

(* unsigned char redInc = 1;  if (redDelta < 0) redInc = -1; *)
Definition colourInc (Delta : Z) : Z :=
  if Delta <? 0 then UChar.wrap (-1) else 1.

Definition colourInit (FadeTime Target Prev : Z) : colour :=
  let Delta := colourDelta Target Prev in
  let t := colourTime FadeTime Delta in
  {| Temp := Prev; Time := t; TimeInc := t; Inc := colourInc Delta |}.

(* if ( fadeCounter == redTime ) {
     redTemp = redTemp + redInc;
     redTime = redTime + redTimeInc;
   } *)
Definition colourStep (fadeCounter : Z) (c : colour) : colour :=
  if fadeCounter =? Time c then
    {| Temp := UChar.wrap (Temp c + Inc c);
       Time := Int16.add (Time c) (TimeInc c);
       TimeInc := TimeInc c;
       Inc := Inc c |}
  else c.

(* for (int fadeCounter=1; fadeCounter<=FadeTime; fadeCounter++) { ... } *)
Fixpoint fade_loop (fuel : nat) (fadeCounter FadeTime : Z)
    (r g b : colour) : result trace :=
  if fadeCounter <=? FadeTime then
    match fuel with
    | O => OutOfFuel
    | S fuel' =>
        let r := colourStep fadeCounter r in
        let g := colourStep fadeCounter g in
        let b := colourStep fadeCounter b in
        rest <- fade_loop fuel' (Int16.add fadeCounter 1) FadeTime r g b ;;
        Ok ([Write OCR1A (Temp r); Write OCR1B (Temp b); Write OCR0A (Temp g)]
              ++ delay_ten_us 100 ++ rest)
    end
  else Ok [].

(* for (int holdCounter=0; holdCounter<HoldTime; holdCounter++) { ... } *)
Fixpoint hold_loop (fuel : nat) (holdCounter HoldTime : Z) : result trace :=
  if holdCounter <? HoldTime then
    match fuel with
    | O => OutOfFuel
    | S fuel' =>
        rest <- hold_loop fuel' (Int16.add holdCounter 1) HoldTime ;;
        Ok (delay_ten_us 100 ++ rest)
    end
  else Ok [].

(* OCR1A = Red;  OCR1B = Blue;  OCR0A = Green; *)
Definition set_leds (Red Green Blue : Z) : trace :=
  [Write OCR1A Red; Write OCR1B Blue; Write OCR0A Green].

Definition sendrgbElement (fuel : nat) (tab : list rgbElement) (index : Z)
    : result trace :=
  e <- pgm_read tab index ;;
  let FadeTime := fadeTime e in
  let HoldTime := holdTime e in
  let Red := UChar.wrap (255 - red e) in
  let Green := UChar.wrap (255 - green e) in
  let Blue := UChar.wrap (255 - blue e) in
  prev <- (if negb (index =? 0) then
             p <- pgm_read tab (Int16.sub index 1) ;;
             Ok (UChar.wrap (255 - red p),
                 UChar.wrap (255 - green p),
                 UChar.wrap (255 - blue p))
           else Ok (0, 0, 0)) ;;
  let '(redPrev, greenPrev, bluePrev) := prev in
  let r := colourInit FadeTime Red redPrev in
  let g := colourInit FadeTime Green greenPrev in
  let b := colourInit FadeTime Blue bluePrev in
  let blink := if FadeTime =? 0 then set_leds Red Green Blue else [] in
  fade <- fade_loop fuel 1 FadeTime r g b ;;
  hold <- hold_loop fuel 0 HoldTime ;;
  Ok (blink ++ fade ++ set_leds Red Green Blue ++ hold).

(** ** main *)

(* the condition of the do-while: the entry is the end marker *)
Definition is_last (e : rgbElement) : bool :=
  (fadeTime e =? 0) && (holdTime e =? 0).

(* do { sendrgbElement(index); index++; } while (!(... lightTab[index] ...)); *)
Fixpoint do_while (fuel n : nat) (tab : list rgbElement) (index : Z)
    : result (Z * trace) :=
  match n with
  | O => OutOfFuel
  | S n' =>
      t <- sendrgbElement fuel tab index ;;
      let index := Int16.add index 1 in
      e <- pgm_read tab index ;;
      if negb (is_last e) then
        r <- do_while fuel n' tab index ;;
        Ok (fst r, t ++ snd r)
      else Ok (index, t)
  end.

(* for (int count=0; count<360; count++) { do ... while (...); index = 0; } *)
Fixpoint count_loop (fuel : nat) (count : nat) (tab : list rgbElement)
    (index : Z) : result (Z * trace) :=
  match count with
  | O => Ok (index, [])
  | S count' =>
      p <- do_while fuel fuel tab index ;;
      let index := 0 in
      r <- count_loop fuel count' tab index ;;
      Ok (fst r, snd p ++ snd r)
  end.

Definition main (fuel : nat) (tab : list rgbElement) : result trace :=
  let index := 0 in
  r <- count_loop fuel 360 tab index ;;
  Ok ([Initialize] ++ snd r ++ [Teardown]).

(** ** What a run is observed through *)

(** The three brightness levels, as written to the compare registers. *)
Record rgb : Type := mkRgb { level_r : Z; level_g : Z; level_b : Z }.

(** The levels [sendrgbElement] loads for a table entry. *)
Definition inverted (e : rgbElement) : rgb :=
  mkRgb (255 - red e) (255 - green e) (255 - blue e).

(** The levels [sendrgbElement] starts the fade of entry [index] from. *)
Definition previous (tab : list rgbElement) (index : Z) : rgb :=
  if index =? 0 then mkRgb 0 0 0
  else match pgm_read tab (index - 1) with
       | Ok p => inverted p
       | _ => mkRgb 0 0 0
       end.

(** Closed form of the running value of one colour after [tick] iterations
    of the fade loop. *)
Definition ramp (FadeTime Prev Target tick : Z) : Z :=
  let d := Target - Prev in
  if d =? 0 then Prev
  else Prev + Z.sgn d * (tick / (Z.abs (FadeTime ÷ d) + 1)).

Fixpoint zseq (start : Z) (len : nat) : list Z :=
  match len with
  | O => []
  | S len' => start :: zseq (start + 1) len'
  end.

(** What one iteration of the fade loop emits, in closed form. *)
Definition fade_frame (FadeTime : Z) (prev target : rgb) (tick : Z) : trace :=
  [Write OCR1A (ramp FadeTime (level_r prev) (level_r target) tick);
   Write OCR1B (ramp FadeTime (level_b prev) (level_b target) tick);
   Write OCR0A (ramp FadeTime (level_g prev) (level_g target) tick);
   Delay 100].

Definition fade_trace (FadeTime : Z) (prev target : rgb) : trace :=
  flat_map (fade_frame FadeTime prev target) (zseq 1 (Z.to_nat FadeTime)).

Definition hold_trace (HoldTime : Z) : trace :=
  repeat (Delay 100) (Z.to_nat HoldTime).

Definition leds_trace (target : rgb) : trace :=
  set_leds (level_r target) (level_g target) (level_b target).

(** Closed form of everything one call of [sendrgbElement] emits. *)
Definition element_trace (FadeTime HoldTime : Z) (prev target : rgb) : trace :=
  (if FadeTime =? 0 then leds_trace target else [])
    ++ fade_trace FadeTime prev target
    ++ leds_trace target
    ++ hold_trace HoldTime.

Definition entry_trace (tab : list rgbElement) (index : Z) : trace :=
  match pgm_read tab index with
  | Ok e => element_trace (fadeTime e) (holdTime e) (previous tab index) (inverted e)
  | _ => []
  end.

(** Observations on a trace. *)
Definition register_eqb (r r' : register) : bool :=
  match r, r' with
  | OCR1A, OCR1A | OCR1B, OCR1B | OCR0A, OCR0A => true
  | _, _ => false
  end.

Definition is_delay (ev : event) : bool :=
  match ev with Delay _ => true | _ => false end.

(** The values written to register [r], in order. *)
Definition written (r : register) (t : trace) : list Z :=
  flat_map (fun ev => match ev with
                      | Write r' v => if register_eqb r r' then [v] else []
                      | _ => []
                      end) t.

(** Number of calls of the tick delay [delay_ten_us(100)]. *)
Definition ticks (t : trace) : Z := Z.of_nat (length (filter is_delay t)).

(** Contents of the compare registers. *)
Record leds : Type := mkLeds { ocr1a : Z; ocr1b : Z; ocr0a : Z }.

Definition apply_event (s : leds) (ev : event) : leds :=
  match ev with
  | Write OCR1A v => mkLeds v (ocr1b s) (ocr0a s)
  | Write OCR1B v => mkLeds (ocr1a s) v (ocr0a s)
  | Write OCR0A v => mkLeds (ocr1a s) (ocr1b s) v
  | _ => s
  end.

Definition run_trace (s : leds) (t : trace) : leds := fold_left apply_event t s.

(** ** Well-formed entries

    The durations the player handles without a counter wrapping, and the
    range of the [unsigned char] fields. *)
Definition wf_colours (e : rgbElement) : Prop :=
  UChar.in_range (red e) /\ UChar.in_range (green e) /\ UChar.in_range (blue e).

Definition wf_element (e : rgbElement) : Prop :=
  0 <= fadeTime e < Int16.INT_MAX /\
  0 <= holdTime e <= Int16.INT_MAX /\
  wf_colours e.

Definition wf_coloursb (e : rgbElement) : bool :=
  (0 <=? red e) && (red e <=? 255) &&
  (0 <=? green e) && (green e <=? 255) &&
  (0 <=? blue e) && (blue e <=? 255).

Definition wf_elementb (e : rgbElement) : bool :=
  (0 <=? fadeTime e) && (fadeTime e <? Int16.INT_MAX) &&
  (0 <=? holdTime e) && (holdTime e <=? Int16.INT_MAX) &&
  wf_coloursb e.

(** The sum of the durations of a list of entries. *)
Definition duration (e : rgbElement) : Z := fadeTime e + holdTime e.

Definition total_duration (l : list rgbElement) : Z :=
  fold_right (fun e acc => duration e + acc) 0 l.

(** Invariant of one colour of the fade loop after [k] iterations, for a
    colour that has to move ([d <> 0], step interval [s]). *)
Definition colour_inv (FadeTime Prev Target k : Z) (c : colour) : Prop :=
  let d := Target - Prev in
  let s := Z.abs (FadeTime ÷ d) + 1 in
  Temp c = ramp FadeTime Prev Target k /\
  Inc c = colourInc d /\
  (d = 0 -> Time c = 0 /\ TimeInc c = 0) /\
  (d <> 0 ->
     TimeInc c = s /\
     (Time c = (k / s + 1) * s \/ (Time c < 0 /\ FadeTime < (k / s + 1) * s))).

(** The level of the colour a register drives: OC1A is the red lead,
    OC1B the blue one and OC0A the green one. *)
Definition level (r : register) (x : rgb) : Z :=
  match r with
  | OCR1A => level_r x
  | OCR1B => level_b x
  | OCR0A => level_g x
  end.

(** ** The shape of a table

    The entries before the end marker, and the marker of [lightTab]. *)
Definition sentinel : rgbElement := mkElement 0 0 0 0 0.

Definition keyframes (tab : list rgbElement) : list rgbElement := removelast tab.

(** Fuel that covers both loops of an entry. *)
Definition fits (fuel : nat) (e : rgbElement) : Prop :=
  fadeTime e <= Z.of_nat fuel /\ holdTime e <= Z.of_nat fuel.

Definition shorterb (bound : Z) (e : rgbElement) : bool :=
  (fadeTime e <=? bound) && (holdTime e <=? bound).

Definition duration_at (tab : list rgbElement) (index : Z) : Z :=
  match pgm_read tab index with
  | Ok e => duration e
  | _ => 0
  end.

(** What one pass of the do-while over [n] entries emits. *)
Definition pass_trace (tab : list rgbElement) (n : nat) : trace :=
  flat_map (entry_trace tab) (zseq 0 n).

Definition wf_rgb (x : rgb) : Prop :=
  UChar.in_range (level_r x) /\ UChar.in_range (level_g x) /\
  UChar.in_range (level_b x).

(** Entry [index] of [tab] is [e], an entry [sendrgbElement] can play with
    [fuel]: the index is an [int] inside the table, the colours of the table
    are [unsigned char]s, the durations of [e] are non-negative [int]s, the
    loop counter [fadeCounter] can pass [fadeTime e], and the fuel covers
    both loops. *)
Definition playable (fuel : nat) (tab : list rgbElement) (index : Z)
    (e : rgbElement) : Prop :=
  Forall wf_colours tab /\
  pgm_read tab index = Ok e /\
  index <= Int16.INT_MAX /\
  wf_element e /\
  fits fuel e.

(** ** The functions below the player: delays, set-up and shut-down

    [sendrgbElement] was read above through the calls it makes.  Here the
    called functions themselves are embedded, on the state they act on: the
    8-bit I/O registers, which are taken to read back what was last stored
    in them. *)

Module ULong.

(* unsigned long is 32 bits *)
Definition wrap (z : Z) : Z := z mod 4294967296.

Definition add (a b : Z) : Z := wrap (a + b).
Definition sub (a b : Z) : Z := wrap (a - b).

Definition in_range (z : Z) : Prop := 0 <= z < 4294967296.

End ULong.

Module Mcu.

Inductive ioreg : Type :=
| MCUSR | WDTCR | PRR | TIMSK | DDRB | PORTB | GTCCR | TCCR1 | OCR1C
| TCCR0A | TCCR0B | MCUCR
| OCR (r : register).

Definition ioreg_eqb (a b : ioreg) : bool :=
  match a, b with
  | MCUSR, MCUSR | WDTCR, WDTCR | PRR, PRR | TIMSK, TIMSK | DDRB, DDRB
  | PORTB, PORTB | GTCCR, GTCCR | TCCR1, TCCR1 | OCR1C, OCR1C
  | TCCR0A, TCCR0A | TCCR0B, TCCR0B | MCUCR, MCUCR => true
  | OCR r, OCR r' => register_eqb r r'
  | _, _ => false
  end.

Record state : Type := mkState {
  reg : ioreg -> Z;      (* the I/O registers *)
  pinb_writes : Z;       (* how often PINB |= 0b00100000 was executed *)
  interrupts : bool;     (* the global interrupt flag *)
  sleeping : bool        (* sleep_cpu() was executed *)
}.

(* R = v;  for an 8-bit register R *)
Definition store (r : ioreg) (v : Z) (s : state) : state :=
  mkState (fun r' => if ioreg_eqb r r' then UChar.wrap v else reg s r')
          (pinb_writes s) (interrupts s) (sleeping s).

(* PINB |= 0b00100000; *)
Definition toggle_PINB (s : state) : state :=
  mkState (reg s) (pinb_writes s + 1) (interrupts s) (sleeping s).

(* for (count=0; count <= DelayCount; count++) {PINB |= 0b00100000;}; *)
Fixpoint spin_loop (fuel : nat) (count DelayCount : Z) (s : state)
    : result state :=
  if count <=? DelayCount then
    match fuel with
    | O => OutOfFuel
    | S fuel' =>
        spin_loop fuel' (ULong.add count 1) DelayCount (toggle_PINB s)
    end
  else Ok s.

(* while (us != 0) { for (...) {...}; us--; } *)
Fixpoint delay_loop (fuel n : nat) (DelayCount us : Z) (s : state)
    : result state :=
  if negb (us =? 0) then
    match n with
    | O => OutOfFuel
    | S n' =>
        s <- spin_loop fuel 0 DelayCount s ;;
        delay_loop fuel n' DelayCount (ULong.sub us 1) s
    end
  else Ok s.

Definition delay_ten_us (fuel : nat) (us : Z) (s : state) : result state :=
  let DelayCount := 6 in
  delay_loop fuel fuel DelayCount us s.

Definition delay_x_us (fuel : nat) (x : Z) (s : state) : result state :=
  let DelayCount := 0 in
  delay_loop fuel fuel DelayCount x s.

(** The bit numbers [initialize] takes from [avr/io.h].  The header is not
    among the sources; the functions take the numbers as a parameter. *)
Record timer0_bits : Type := mkBits {
  COM0A1 : Z; COM0A0 : Z; WGM01 : Z; WGM00 : Z; CS01 : Z
}.

(* (1 << b), an int *)
Definition bit (b : Z) : Z := Int16.wrap (Z.shiftl 1 b).

Definition initialize (bits : timer0_bits) (s : state) : state :=
  let s := store MCUSR 0 s in
  let s := store WDTCR 24 s in                 (* 0b00011000 *)
  let s := store WDTCR 0 s in
  let s := store PRR 3 s in                    (* 0b00000011 *)
  let s := store TIMSK 0 s in
  let s := store DDRB 23 s in                  (* 0b00010111 *)
  let s := store PORTB 0 s in
  let s := store GTCCR 112 s in                (* 0b01110000 *)
  let s := store TCCR1 121 s in                (* 0b01111001 *)
  let s := store OCR1C 255 s in
  let s := store (OCR OCR1A) 0 s in
  let s := store (OCR OCR1B) 0 s in
  let s := store TCCR0A
             (Z.lor (reg s TCCR0A)
                (Z.lor (Z.lor (Z.lor (bit (COM0A1 bits)) (bit (COM0A0 bits)))
                          (bit (WGM01 bits)))
                   (bit (WGM00 bits)))) s in
  let s := store TCCR0B (Z.lor (reg s TCCR0B) (bit (CS01 bits))) s in
  let s := store (OCR OCR0A) 0 s in
  s.

(* cli(); *)
Definition cli (s : state) : state :=
  mkState (reg s) (pinb_writes s) false (sleeping s).

(* sleep_cpu(); *)
Definition sleep_cpu (s : state) : state :=
  mkState (reg s) (pinb_writes s) (interrupts s) true.

Definition teardown (fuel : nat) (s : state) : result state :=
  let s := cli s in
  s <- delay_ten_us fuel 10000 s ;;
  let s := store TCCR0B (Z.land (reg s TCCR0B) 248) s in   (* 0b11111000 *)
  let s := store TCCR0A (Z.land (reg s TCCR0A) 63) s in    (* 0b00111111 *)
  let s := store TCCR1 (Z.land (reg s TCCR1) 240) s in     (* 0b11110000 *)
  let s := store TCCR1 (Z.land (reg s TCCR1) 207) s in     (* 0b11001111 *)
  let s := store GTCCR (Z.land (reg s GTCCR) 207) s in     (* 0b11001111 *)
  let s := store DDRB 0 s in
  let s := store PORTB 255 s in
  let s := store MCUCR (Z.lor (reg s MCUCR) 32) s in       (* 0b00100000 *)
  let s := store MCUCR (Z.lor (reg s MCUCR) 16) s in       (* 0b00010000 *)
  Ok (sleep_cpu s).

(** What an event of a trace does to the registers. *)
Definition exec_event (fuel : nat) (bits : timer0_bits) (ev : event)
    (s : state) : result state :=
  match ev with
  | Write r v => Ok (store (OCR r) v s)
  | Delay us => delay_ten_us fuel us s
  | Initialize => Ok (initialize bits s)
  | Teardown => teardown fuel s
  end.

Fixpoint exec (fuel : nat) (bits : timer0_bits) (t : trace) (s : state)
    : result state :=
  match t with
  | [] => Ok s
  | ev :: t' =>
      s <- exec_event fuel bits ev s ;;
      exec fuel bits t' s
  end.

(** The registers hold bytes. *)
Definition bytes (s : state) : Prop := forall r, UChar.in_range (reg s r).

End Mcu.


(** A small table with durations below zero, for trying the player on. *)
Definition odd_table : list rgbElement :=
  [mkElement 3 2 0 255 255; mkElement (-5) (-7) 0 100 200;
   mkElement 0 0 0 0 0].

(** A table that goes on after its first end marker, one that starts with
    an end marker, and one that has none. *)
Definition long_table : list rgbElement :=
  [mkElement 3 2 0 255 255; mkElement 2 0 255 0 0; mkElement 0 0 0 0 0;
   mkElement 1 1 9 9 9; mkElement 0 0 0 0 0].

Definition marked_table : list rgbElement :=
  [mkElement 0 0 10 20 30; mkElement 3 2 0 255 255; mkElement 0 0 0 0 0].

Definition open_table : list rgbElement :=
  [mkElement 3 2 0 255 255; mkElement 2 0 255 0 0].

(** The state after [n] more executions of [PINB |= 0b00100000]. *)
Definition pinb_written (n : Z) (s : Mcu.state) : Mcu.state :=
  Mcu.mkState (Mcu.reg s) (Mcu.pinb_writes s + n) (Mcu.interrupts s)
    (Mcu.sleeping s).

(** Register numbers in range for an 8-bit register. *)
Definition wf_bits (bits : Mcu.timer0_bits) : Prop :=
  0 <= Mcu.COM0A1 bits < 8 /\ 0 <= Mcu.COM0A0 bits < 8 /\
  0 <= Mcu.WGM01 bits < 8 /\ 0 <= Mcu.WGM00 bits < 8 /\
  0 <= Mcu.CS01 bits < 8.

(** The bit numbers of the ATtiny25, as the commented-out constant
    [0b11000011] for TCCR0A in [initialize] spells them. *)
Definition tiny25_bits : Mcu.timer0_bits := Mcu.mkBits 7 6 1 0 1.

(** A trace the player can have emitted: bytes to the compare registers and
    tick delays. *)
Definition player_event (ev : event) : Prop :=
  match ev with
  | Write _ v => UChar.in_range v
  | Delay us => us = 100
  | _ => False
  end.

(** The do-while of [main] once more, keeping what the entries played so
    far have emitted when the run does not return: the result of
    [do_while] forgets the trace of a run that reads past the table or
    runs out of fuel. *)
Fixpoint do_while_emits (fuel n : nat) (tab : list rgbElement) (index : Z)
    : trace * result Z :=
  match n with
  | O => ([], OutOfFuel)
  | S n' =>
      match sendrgbElement fuel tab index with
      | Ok t =>
          let index := Int16.add index 1 in
          match pgm_read tab index with
          | Ok e =>
              if negb (is_last e) then
                let r := do_while_emits fuel n' tab index in
                (t ++ fst r, snd r)
              else (t, Ok index)
          | OutOfFuel => (t, OutOfFuel)
          | OutOfBounds => (t, OutOfBounds)
          end
      | OutOfFuel => ([], OutOfFuel)
      | OutOfBounds => ([], OutOfBounds)
      end
  end.

(** What [do_while] returns for a run of [do_while_emits]. *)
Definition returned (r : trace * result Z) : result (Z * trace) :=
  match snd r with
  | Ok index => Ok (index, fst r)
  | OutOfFuel => OutOfFuel
  | OutOfBounds => OutOfBounds
  end.

(** * Properties *)

(** ** Arithmetic of the machine integers *)

Lemma int16_wrap_id z : Int16.in_range z -> Int16.wrap z = z.
Proof.
  unfold Int16.in_range, Int16.INT_MIN, Int16.INT_MAX, Int16.wrap; intros H.
  rewrite Z.mod_small; lia.
Qed.

Lemma int16_wrap_over z : 32767 < z < 65536 -> Int16.wrap z = z - 65536.
Proof.
  unfold Int16.wrap; intros H.
  replace (z + 32768) with (z - 32768 + 1 * 65536) by lia.
  rewrite Z_mod_plus_full, Z.mod_small; lia.
Qed.

Lemma uchar_wrap_id z : UChar.in_range z -> UChar.wrap z = z.
Proof.
  unfold UChar.in_range, UChar.wrap; intros H. apply Z.mod_small; lia.
Qed.

Lemma uchar_wrap_down z : 1 <= z <= 255 -> UChar.wrap (z + 255) = z - 1.
Proof.
  unfold UChar.wrap; intros H.
  replace (z + 255) with (z - 1 + 1 * 256) by lia.
  rewrite Z_mod_plus_full, Z.mod_small; lia.
Qed.

Lemma uchar_wrap_range z : UChar.in_range (UChar.wrap z).
Proof.
  unfold UChar.in_range, UChar.wrap.
  pose proof (Z.mod_pos_bound z 256 ltac:(lia)). lia.
Qed.

(** Truncating division of a non-negative duration. *)
Lemma quot_abs F d : 0 <= F -> d <> 0 -> Z.abs (F ÷ d) = F / Z.abs d.
Proof.
  intros HF Hd. destruct (Z.lt_trichotomy d 0) as [Hn | [H0 | Hp]]; [| lia |].
  - replace d with (- (- d)) at 1 by lia.
    rewrite Z.quot_opp_r by lia.
    rewrite Z.quot_div_nonneg by lia.
    rewrite (Z.abs_neq d) by lia.
    pose proof (Z.div_pos F (- d) HF ltac:(lia)). lia.
  - rewrite Z.quot_div_nonneg by lia.
    rewrite (Z.abs_eq d) by lia.
    pose proof (Z.div_pos F d HF ltac:(lia)). lia.
Qed.

Lemma quot_abs_bound F d : 0 <= F -> d <> 0 -> 0 <= Z.abs (F ÷ d) <= F.
Proof.
  intros HF Hd. rewrite quot_abs by assumption.
  split.
  - apply Z.div_pos; lia.
  - apply Z.div_le_upper_bound; nia.
Qed.

(** The step interval times the distance exceeds the fade time. *)
Lemma interval_exceeds F d :
  0 <= F -> d <> 0 -> F < (Z.abs (F ÷ d) + 1) * Z.abs d.
Proof.
  intros HF Hd. rewrite quot_abs by assumption.
  pose proof (Z.div_mod F (Z.abs d) ltac:(lia)).
  pose proof (Z.mod_pos_bound F (Z.abs d) ltac:(lia)). nia.
Qed.

Lemma colourTime_closed F d :
  0 <= F < Int16.INT_MAX -> d <> 0 -> colourTime F d = Z.abs (F ÷ d) + 1.
Proof.
  unfold Int16.INT_MAX; intros HF Hd. unfold colourTime.
  destruct (Z.eqb_spec d 0) as [|_]; [contradiction|].
  pose proof (quot_abs_bound F d ltac:(lia) Hd) as Hq.
  assert (Hr : Int16.in_range (F ÷ d))
    by (unfold Int16.in_range, Int16.INT_MIN, Int16.INT_MAX; lia).
  unfold Int16.div. rewrite (int16_wrap_id _ Hr).
  unfold Int16.add, Int16.neg.
  destruct (Z.ltb_spec (F ÷ d) 0).
  - rewrite (int16_wrap_id (- (F ÷ d)))
      by (unfold Int16.in_range, Int16.INT_MIN, Int16.INT_MAX; lia).
    rewrite int16_wrap_id
      by (unfold Int16.in_range, Int16.INT_MIN, Int16.INT_MAX; lia).
    lia.
  - rewrite int16_wrap_id
      by (unfold Int16.in_range, Int16.INT_MIN, Int16.INT_MAX; lia).
    lia.
Qed.

Lemma colourDelta_closed t p :
  UChar.in_range t -> UChar.in_range p -> colourDelta t p = t - p.
Proof.
  unfold UChar.in_range, colourDelta, Int16.sub; intros Ht Hp.
  apply int16_wrap_id.
  unfold Int16.in_range, Int16.INT_MIN, Int16.INT_MAX; lia.
Qed.

(** ** The fade loop, one colour *)

Lemma div_same s n r k :
  0 < s -> k = s * n + r -> 0 <= r -> r + 1 < s -> (k + 1) / s = n.
Proof.
  intros Hs Hk Hr Hlt. symmetry.
  apply (Z.div_unique_pos (k + 1) s n (r + 1)); lia.
Qed.

Lemma div_next s n k : 0 < s -> k + 1 = (n + 1) * s -> (k + 1) / s = n + 1.
Proof.
  intros Hs Hk. symmetry.
  apply (Z.div_unique_pos (k + 1) s (n + 1) 0); lia.
Qed.

Lemma ramp_start F p t : ramp F p t 0 = p.
Proof.
  unfold ramp. destruct (t - p =? 0); [reflexivity|].
  rewrite Zdiv_0_l. lia.
Qed.

Lemma colour_inv_init F p t :
  0 <= F < Int16.INT_MAX -> UChar.in_range t -> UChar.in_range p ->
  colour_inv F p t 0 (colourInit F t p).
Proof.
  intros HF Ht Hp. unfold colour_inv, colourInit; cbn [Temp Time TimeInc Inc].
  rewrite (colourDelta_closed t p Ht Hp), ramp_start.
  split; [reflexivity|]. split; [reflexivity|]. split.
  - intros ->. split; reflexivity.
  - intros Hd. split.
    + apply colourTime_closed; assumption.
    + left. rewrite colourTime_closed by assumption.
      rewrite Zdiv_0_l. lia.
Qed.

Lemma ramp_still F p t k : t - p = 0 -> ramp F p t k = p.
Proof. unfold ramp. intros ->. reflexivity. Qed.

Lemma ramp_moving F p t k :
  t - p <> 0 ->
  ramp F p t k = p + Z.sgn (t - p) * (k / (Z.abs (F ÷ (t - p)) + 1)).
Proof.
  unfold ramp. intros H. destruct (Z.eqb_spec (t - p) 0); [contradiction|].
  reflexivity.
Qed.

(** The number of adjustments made during the fade stays below the
    distance to cover. *)
Lemma adjustments_bound F d k :
  0 <= k <= F -> d <> 0 -> 0 <= k / (Z.abs (F ÷ d) + 1) < Z.abs d.
Proof.
  intros Hk Hd.
  pose proof (quot_abs_bound F d ltac:(lia) Hd) as Hq.
  pose proof (interval_exceeds F d ltac:(lia) Hd) as He.
  split.
  - apply Z.div_pos; lia.
  - apply Z.div_lt_upper_bound; nia.
Qed.

Lemma ramp_between F p t k :
  0 <= k <= F -> Z.min p t <= ramp F p t k <= Z.max p t.
Proof.
  intros Hk. destruct (Z.eq_dec (t - p) 0) as [Hd | Hd].
  - rewrite ramp_still by assumption. lia.
  - rewrite ramp_moving by assumption.
    pose proof (adjustments_bound F (t - p) k Hk Hd). lia.
Qed.

Lemma colour_inv_step F p t k c :
  0 <= k -> k + 1 <= F < Int16.INT_MAX ->
  UChar.in_range t -> UChar.in_range p ->
  colour_inv F p t k c ->
  colour_inv F p t (k + 1) (colourStep (k + 1) c).
Proof.
  unfold Int16.INT_MAX, UChar.in_range.
  intros Hk HF Ht Hp (HT & HI & H0 & Hn).
  destruct (Z.eq_dec (t - p) 0) as [Hd | Hd].
  - (* the colour does not move: its time stays 0 and never matches *)
    destruct (H0 Hd) as [Htime Hinc].
    unfold colourStep. rewrite Htime.
    destruct (Z.eqb_spec (k + 1) 0); [lia|].
    unfold colour_inv. rewrite ramp_still in * by assumption.
    repeat (split; [assumption|]). intros; contradiction.
  - destruct (Hn Hd) as [Hinc Htime].
    rewrite ramp_moving in HT by assumption.
    pose proof (quot_abs_bound F (t - p) ltac:(lia) Hd) as Hq.
    pose proof (interval_exceeds F (t - p) ltac:(lia) Hd) as He.
    set (s := Z.abs (F ÷ (t - p)) + 1) in *.
    assert (Hs : 0 < s) by lia.
    pose proof (Z.div_mod k s ltac:(lia)) as Hdm.
    pose proof (Z.mod_pos_bound k s Hs) as Hmb.
    assert (Hn0 : 0 <= k / s) by (apply Z.div_pos; lia).
    set (n := k / s) in *.
    unfold colourStep.
    destruct (Z.eqb_spec (k + 1) (Time c)) as [Heq | Hne].
    + (* the scheduled tick: adjust by one unit and reschedule *)
      destruct Htime as [Htime | [Hneg _]]; [| lia].
      assert (Hdiv : (k + 1) / s = n + 1)
        by (apply div_next; [assumption | lia]).
      assert (Hlt : n + 1 < Z.abs (t - p)) by nia.
      unfold colour_inv; cbn [Temp Time TimeInc Inc].
      rewrite ramp_moving by assumption. fold s. rewrite Hdiv.
      split; [| split; [assumption | split; [intros; contradiction |]]].
      * rewrite HT, HI. unfold colourInc.
        destruct (Z.ltb_spec (t - p) 0).
        -- change (UChar.wrap (-1)) with 255.
           replace (p + Z.sgn (t - p) * n + 255) with (p - n + 255) by lia.
           rewrite uchar_wrap_down by lia. lia.
        -- rewrite uchar_wrap_id by (unfold UChar.in_range; lia). lia.
      * intros _. split; [assumption|].
        rewrite Htime, Hinc. unfold Int16.add.
        destruct (Z_le_gt_dec ((n + 1) * s + s) 32767).
        -- left. rewrite int16_wrap_id
             by (unfold Int16.in_range, Int16.INT_MIN, Int16.INT_MAX; nia).
           lia.
        -- right. rewrite int16_wrap_over by nia. nia.
    + (* not a scheduled tick: nothing changes *)
      assert (Hdiv : (k + 1) / s = n).
      { destruct Htime as [Htime | [Hneg Hbig]].
        - apply (div_same s n (k mod s)); [assumption | lia | lia | nia].
        - apply (div_same s n (k mod s)); [assumption | lia | lia | nia]. }
      unfold colour_inv.
      rewrite ramp_moving by assumption. fold s. rewrite Hdiv.
      split; [assumption | split; [assumption | split; [intros; contradiction |]]].
      intros _. split; [assumption|]. exact Htime.
Qed.

Lemma colour_step_temp F p t k c :
  0 <= k -> k + 1 <= F < Int16.INT_MAX ->
  UChar.in_range t -> UChar.in_range p ->
  colour_inv F p t k c ->
  Temp (colourStep (k + 1) c) = ramp F p t (k + 1).
Proof.
  intros Hk HF Ht Hp Hinv.
  destruct (colour_inv_step F p t k c Hk HF Ht Hp Hinv) as [H _]. exact H.
Qed.

(** ** The loops *)

Section Loops.

Variable FadeTime : Z.
Variables prev target : rgb.

Hypothesis FadeTime_range : 0 <= FadeTime < Int16.INT_MAX.
Hypothesis prev_r : UChar.in_range (level_r prev).
Hypothesis prev_g : UChar.in_range (level_g prev).
Hypothesis prev_b : UChar.in_range (level_b prev).
Hypothesis target_r : UChar.in_range (level_r target).
Hypothesis target_g : UChar.in_range (level_g target).
Hypothesis target_b : UChar.in_range (level_b target).

(** After [k] iterations, [m] more are left; with that much fuel the loop
    ends and has emitted the closed-form frames. *)
Lemma fade_loop_closed (m : nat) : forall (fuel : nat) (k : Z) (r g b : colour),
  (m <= fuel)%nat -> 0 <= k -> k + Z.of_nat m = FadeTime ->
  colour_inv FadeTime (level_r prev) (level_r target) k r ->
  colour_inv FadeTime (level_g prev) (level_g target) k g ->
  colour_inv FadeTime (level_b prev) (level_b target) k b ->
  fade_loop fuel (k + 1) FadeTime r g b
  = Ok (flat_map (fade_frame FadeTime prev target) (zseq (k + 1) m)).
Proof.
  induction m as [| m IH]; intros fuel k r g b Hfuel Hk Hend Hr Hg Hb.
  - assert (Hdone : (k + 1 <=? FadeTime) = false) by (apply Z.leb_gt; lia).
    destruct fuel; simpl; rewrite Hdone; reflexivity.
  - destruct fuel as [| fuel]; [lia|].
    assert (Hgo : (k + 1 <=? FadeTime) = true) by (apply Z.leb_le; lia).
    assert (HF : k + 1 <= FadeTime < Int16.INT_MAX) by lia.
    simpl fade_loop. rewrite Hgo.
    unfold Int16.add. rewrite int16_wrap_id
      by (unfold Int16.in_range, Int16.INT_MIN, Int16.INT_MAX in *; lia).
    rewrite (IH fuel (k + 1)); try lia;
      try (apply colour_inv_step; assumption).
    simpl bind. unfold delay_ten_us.
    rewrite (colour_step_temp _ _ _ _ _ Hk HF target_r prev_r Hr).
    rewrite (colour_step_temp _ _ _ _ _ Hk HF target_g prev_g Hg).
    rewrite (colour_step_temp _ _ _ _ _ Hk HF target_b prev_b Hb).
    reflexivity.
Qed.

Lemma fade_loop_trace (fuel : nat) :
  FadeTime <= Z.of_nat fuel ->
  fade_loop fuel 1 FadeTime
    (colourInit FadeTime (level_r target) (level_r prev))
    (colourInit FadeTime (level_g target) (level_g prev))
    (colourInit FadeTime (level_b target) (level_b prev))
  = Ok (fade_trace FadeTime prev target).
Proof.
  intros Hfuel. unfold fade_trace.
  apply (fade_loop_closed (Z.to_nat FadeTime) fuel 0);
    try lia; apply colour_inv_init; assumption.
Qed.

End Loops.

Lemma hold_loop_closed (m : nat) : forall (fuel : nat) (k HoldTime : Z),
  (m <= fuel)%nat -> 0 <= k -> k + Z.of_nat m = HoldTime ->
  HoldTime <= Int16.INT_MAX ->
  hold_loop fuel k HoldTime = Ok (repeat (Delay 100) m).
Proof.
  induction m as [| m IH]; intros fuel k H Hfuel Hk Hend Hmax.
  - assert (Hdone : (k <? H) = false) by (apply Z.ltb_ge; lia).
    destruct fuel; simpl; rewrite Hdone; reflexivity.
  - destruct fuel as [| fuel]; [lia|].
    assert (Hgo : (k <? H) = true) by (apply Z.ltb_lt; lia).
    simpl hold_loop. rewrite Hgo.
    unfold Int16.add. rewrite int16_wrap_id
      by (unfold Int16.in_range, Int16.INT_MIN, Int16.INT_MAX in *; lia).
    rewrite (IH fuel (k + 1)) by lia. reflexivity.
Qed.

Lemma hold_loop_trace (fuel : nat) (HoldTime : Z) :
  0 <= HoldTime <= Int16.INT_MAX -> HoldTime <= Z.of_nat fuel ->
  hold_loop fuel 0 HoldTime = Ok (hold_trace HoldTime).
Proof.
  intros HH Hfuel. unfold hold_trace.
  apply hold_loop_closed; lia.
Qed.

(** ** Reading the table *)

Lemma pgm_read_nth tab index e :
  pgm_read tab index = Ok e <->
  0 <= index /\ nth_error tab (Z.to_nat index) = Some e.
Proof.
  unfold pgm_read. destruct (Z.ltb_spec index 0).
  - split; [discriminate | lia].
  - destruct (nth_error tab (Z.to_nat index)) as [e' |].
    + split; [intros [= ->]; auto | intros [_ [= ->]]; reflexivity].
    + split; [discriminate | intros [_ [=]]].
Qed.

Lemma pgm_read_In tab index e : pgm_read tab index = Ok e -> In e tab.
Proof.
  intros H. apply pgm_read_nth in H. destruct H as [_ H].
  eapply nth_error_In; eassumption.
Qed.

Lemma pgm_read_before tab index e :
  pgm_read tab index = Ok e -> 0 < index ->
  exists p, pgm_read tab (index - 1) = Ok p.
Proof.
  intros H Hpos. apply pgm_read_nth in H. destruct H as [_ H].
  assert (Hlen : (Z.to_nat (index - 1) < length tab)%nat).
  { assert (Z.to_nat index < length tab)%nat
      by (apply nth_error_Some; congruence). lia. }
  destruct (nth_error tab (Z.to_nat (index - 1))) as [p |] eqn:Hp.
  - exists p. apply pgm_read_nth. split; [lia | assumption].
  - apply nth_error_None in Hp. lia.
Qed.

Lemma inverted_range e :
  wf_colours e ->
  UChar.in_range (level_r (inverted e)) /\
  UChar.in_range (level_g (inverted e)) /\
  UChar.in_range (level_b (inverted e)).
Proof.
  unfold wf_colours, UChar.in_range, inverted; cbn [level_r level_g level_b]. lia.
Qed.

Lemma previous_range tab index :
  Forall wf_colours tab ->
  UChar.in_range (level_r (previous tab index)) /\
  UChar.in_range (level_g (previous tab index)) /\
  UChar.in_range (level_b (previous tab index)).
Proof.
  intros Htab. unfold previous.
  destruct (index =? 0);
    [unfold UChar.in_range; cbn [level_r level_g level_b]; lia|].
  destruct (pgm_read tab (index - 1)) as [p | |] eqn:Hp;
    try (unfold UChar.in_range; cbn [level_r level_g level_b]; lia).
  apply inverted_range.
  rewrite Forall_forall in Htab. apply Htab.
  eapply pgm_read_In; eassumption.
Qed.

(** ** sendrgbElement in closed form *)

Lemma sendrgbElement_closed (fuel : nat) tab index e :
  Forall wf_colours tab ->
  pgm_read tab index = Ok e ->
  index <= Int16.INT_MAX ->
  wf_element e ->
  fadeTime e <= Z.of_nat fuel -> holdTime e <= Z.of_nat fuel ->
  sendrgbElement fuel tab index
  = Ok (element_trace (fadeTime e) (holdTime e) (previous tab index) (inverted e)).
Proof.
  intros Htab Hread Hidx (HF & HH & Hcol) HfuelF HfuelH.
  destruct (inverted_range e Hcol) as (Hr & Hg & Hb).
  destruct (previous_range tab index Htab) as (Hpr & Hpg & Hpb).
  pose proof (fade_loop_trace (fadeTime e) (previous tab index) (inverted e)
                HF Hpr Hpg Hpb Hr Hg Hb fuel HfuelF) as Hfade.
  pose proof (hold_loop_trace fuel (holdTime e) HH HfuelH) as Hhold.
  assert (Hidx0 : 0 <= index) by (apply pgm_read_nth in Hread; tauto).
  destruct Hcol as (Hcr & Hcg & Hcb).
  unfold sendrgbElement. rewrite Hread. cbn [bind].
  rewrite !uchar_wrap_id by (unfold UChar.in_range in *; lia).
  unfold previous in *.
  destruct (Z.eqb_spec index 0) as [-> | Hne]; cbn [negb bind].
  - cbn [level_r level_g level_b inverted] in Hfade.
    rewrite Hfade, Hhold. reflexivity.
  - destruct (pgm_read_before tab index e Hread ltac:(lia)) as [p Hp].
    unfold Int16.sub. rewrite int16_wrap_id
      by (unfold Int16.in_range, Int16.INT_MIN, Int16.INT_MAX in *; lia).
    rewrite Hp in *. cbn [bind].
    assert (Hpc : wf_colours p).
    { rewrite Forall_forall in Htab. apply Htab. eapply pgm_read_In; eassumption. }
    destruct Hpc as (Hp1 & Hp2 & Hp3).
    rewrite !uchar_wrap_id by (unfold UChar.in_range in *; lia).
    cbn [level_r level_g level_b inverted] in Hfade.
    rewrite Hfade, Hhold. reflexivity.
Qed.

(** ** Checking a table by computation *)

Lemma wf_coloursb_sound e : wf_coloursb e = true -> wf_colours e.
Proof.
  unfold wf_coloursb, wf_colours, UChar.in_range. intros H.
  repeat (apply andb_prop in H; destruct H as [H ?]).
  repeat match goal with
         | h : (_ <=? _) = true |- _ => apply Z.leb_le in h
         end.
  lia.
Qed.

Lemma wf_elementb_sound e : wf_elementb e = true -> wf_element e.
Proof.
  unfold wf_elementb, wf_element. intros H.
  apply andb_prop in H. destruct H as [H Hc].
  repeat (apply andb_prop in H; destruct H as [H ?]).
  repeat match goal with
         | h : (_ <=? _) = true |- _ => apply Z.leb_le in h
         | h : (_ <? _) = true |- _ => apply Z.ltb_lt in h
         end.
  split; [lia | split; [lia | apply wf_coloursb_sound; assumption]].
Qed.

Lemma shorterb_sound bound fuel e :
  bound <= Z.of_nat fuel -> shorterb bound e = true -> fits fuel e.
Proof.
  unfold shorterb, fits. intros Hb H. apply andb_prop in H. destruct H as [H1 H2].
  apply Z.leb_le in H1. apply Z.leb_le in H2. lia.
Qed.

Lemma forallb_sound {A} (f : A -> bool) (P : A -> Prop) (l : list A) :
  (forall x, f x = true -> P x) -> forallb f l = true -> Forall P l.
Proof.
  intros Hf H. apply Forall_forall. intros x Hx.
  apply Hf. rewrite forallb_forall in H. apply H. assumption.
Qed.

Lemma fits_mono fuel fuel' e : (fuel <= fuel')%nat -> fits fuel e -> fits fuel' e.
Proof. unfold fits. lia. Qed.

(** ** One pass over the table *)

Section Pass.

Variable fuel : nat.
Variables (tab body rest : list rgbElement) (last : rgbElement).

Hypothesis tab_shape : tab = body ++ last :: rest.
Hypothesis last_marks : is_last last = true.
Hypothesis body_wf : Forall wf_element body.
Hypothesis tab_colours : Forall wf_colours tab.
Hypothesis body_fits : Forall (fits fuel) body.
Hypothesis body_unmarked : Forall (fun e => is_last e = false) (tl body).
Hypothesis body_length : Z.of_nat (length body) <= Int16.INT_MAX.

Lemma read_body i :
  0 <= i < Z.of_nat (length body) ->
  exists e, pgm_read tab i = Ok e /\ nth_error body (Z.to_nat i) = Some e.
Proof.
  intros Hi.
  destruct (nth_error body (Z.to_nat i)) as [e |] eqn:He.
  - exists e. split; [| reflexivity].
    apply pgm_read_nth. split; [lia|].
    rewrite tab_shape, nth_error_app1 by lia. assumption.
  - apply nth_error_None in He. lia.
Qed.

Lemma read_last : pgm_read tab (Z.of_nat (length body)) = Ok last.
Proof.
  apply pgm_read_nth. split; [lia|].
  rewrite Nat2Z.id, tab_shape, nth_error_app2 by lia.
  rewrite Nat.sub_diag. reflexivity.
Qed.

Lemma entry_trace_closed i e :
  pgm_read tab i = Ok e ->
  entry_trace tab i
  = element_trace (fadeTime e) (holdTime e) (previous tab i) (inverted e).
Proof. unfold entry_trace. intros ->. reflexivity. Qed.

Lemma sendrgbElement_body i :
  0 <= i < Z.of_nat (length body) ->
  sendrgbElement fuel tab i = Ok (entry_trace tab i).
Proof.
  intros Hi. destruct (read_body i Hi) as (e & Hread & Hnth).
  assert (Hin : In e body) by (eapply nth_error_In; eassumption).
  rewrite Forall_forall in body_wf, body_fits.
  destruct (body_fits e Hin) as [HfF HfH].
  rewrite (entry_trace_closed i e Hread).
  apply sendrgbElement_closed; auto. lia.
Qed.

Lemma unmarked_after_first i e :
  1 <= i < Z.of_nat (length body) ->
  pgm_read tab i = Ok e -> is_last e = false.
Proof.
  intros Hi Hread.
  destruct (read_body i ltac:(lia)) as (e' & Hread' & Hnth).
  rewrite Hread in Hread'. injection Hread' as <-.
  destruct body as [| e0 l]; [simpl in Hi; lia|].
  replace (Z.to_nat i) with (S (Z.to_nat (i - 1))) in Hnth by lia.
  simpl in Hnth, body_unmarked.
  rewrite Forall_forall in body_unmarked. apply body_unmarked.
  eapply nth_error_In; eassumption.
Qed.

(** Started at entry [k] with [m] entries left before the marker, the
    do-while plays exactly those [m] entries and stops at the marker. *)
Lemma do_while_closed (m : nat) : forall (n : nat) (k : Z),
  (S m <= n)%nat -> 0 <= k -> k + Z.of_nat (S m) = Z.of_nat (length body) ->
  do_while fuel n tab k
  = Ok (Z.of_nat (length body), flat_map (entry_trace tab) (zseq k (S m))).
Proof.
  pose proof body_length as Hmax. unfold Int16.INT_MAX in Hmax.
  induction m as [| m IH]; intros n k Hn Hk Hend;
    (destruct n as [| n]; [lia|]).
  - simpl do_while. rewrite sendrgbElement_body by lia. cbn [bind].
    unfold Int16.add. rewrite int16_wrap_id
      by (unfold Int16.in_range, Int16.INT_MIN, Int16.INT_MAX; lia).
    replace (k + 1) with (Z.of_nat (length body)) by lia.
    rewrite read_last. cbn [bind]. rewrite last_marks. cbn [negb].
    simpl. rewrite app_nil_r. reflexivity.
  - simpl do_while. rewrite sendrgbElement_body by lia. cbn [bind].
    unfold Int16.add. rewrite int16_wrap_id
      by (unfold Int16.in_range, Int16.INT_MIN, Int16.INT_MAX; lia).
    destruct (read_body (k + 1) ltac:(lia)) as (e & Hread & _).
    rewrite Hread. cbn [bind].
    rewrite (unmarked_after_first (k + 1) e ltac:(lia) Hread). cbn [negb].
    rewrite (IH n (k + 1)) by lia. cbn [bind fst snd].
    reflexivity.
Qed.

Lemma pass_closed :
  body <> [] -> (length body <= fuel)%nat ->
  do_while fuel fuel tab 0
  = Ok (Z.of_nat (length body), pass_trace tab (length body)).
Proof.
  intros Hne Hfuel. unfold pass_trace.
  assert (Hlen : exists m, length body = S m).
  { clear - Hne. destruct body as [| e l]; [contradiction|].
    exists (length l). reflexivity. }
  destruct Hlen as [m Hlen].
  rewrite (do_while_closed m fuel 0) by lia.
  rewrite Hlen. reflexivity.
Qed.

(** Every pass of the outer loop starts again at entry 0. *)
Lemma count_loop_closed (count : nat) :
  body <> [] -> (length body <= fuel)%nat ->
  count_loop fuel count tab 0
  = Ok (0, concat (repeat (pass_trace tab (length body)) count)).
Proof.
  intros Hne Hfuel. induction count as [| count IH].
  - reflexivity.
  - simpl count_loop. rewrite pass_closed by assumption. cbn [bind].
    rewrite IH. cbn [bind fst snd]. reflexivity.
Qed.

End Pass.

(** ** Observations on the closed forms *)

Lemma written_app r t1 t2 : written r (t1 ++ t2) = written r t1 ++ written r t2.
Proof. unfold written. apply flat_map_app. Qed.

Lemma written_leds r x : written r (leds_trace x) = [level r x].
Proof. destruct r; reflexivity. Qed.

Lemma written_hold r H : written r (hold_trace H) = [].
Proof.
  unfold hold_trace. induction (Z.to_nat H) as [| n IH]; [reflexivity|].
  simpl. exact IH.
Qed.

Lemma written_frames r F prev target (n : nat) : forall k,
  written r (flat_map (fade_frame F prev target) (zseq k n))
  = map (ramp F (level r prev) (level r target)) (zseq k n).
Proof.
  induction n as [| n IH]; intros k; [reflexivity|].
  cbn [zseq flat_map map]. rewrite written_app, IH.
  destruct r; reflexivity.
Qed.

Lemma written_fade r F prev target :
  written r (fade_trace F prev target)
  = map (ramp F (level r prev) (level r target)) (zseq 1 (Z.to_nat F)).
Proof. apply written_frames. Qed.

Lemma zseq_In k n x : In x (zseq k n) <-> k <= x < k + Z.of_nat n.
Proof.
  revert k. induction n as [| n IH]; intros k.
  - simpl. lia.
  - cbn [zseq In]. rewrite IH. lia.
Qed.

Lemma zseq_length k n : length (zseq k n) = n.
Proof. revert k. induction n as [| n IH]; intros k; simpl; auto. Qed.

Lemma zseq_nth k n (i : nat) :
  (i < n)%nat -> nth_error (zseq k n) i = Some (k + Z.of_nat i).
Proof.
  revert k i. induction n as [| n IH]; intros k i Hi; [lia|].
  destruct i as [| i].
  - simpl. f_equal. lia.
  - cbn [zseq nth_error]. rewrite IH by lia. f_equal. lia.
Qed.

Lemma ticks_app t1 t2 : ticks (t1 ++ t2) = ticks t1 + ticks t2.
Proof. unfold ticks. rewrite filter_app, length_app. lia. Qed.

Lemma ticks_leds x : ticks (leds_trace x) = 0.
Proof. reflexivity. Qed.

Lemma ticks_hold H : 0 <= H -> ticks (hold_trace H) = H.
Proof.
  intros HH. unfold hold_trace, ticks.
  assert (E : forall n, length (filter is_delay (repeat (Delay 100) n)) = n).
  { induction n as [| n IH]; [reflexivity|]. simpl. f_equal. exact IH. }
  rewrite E. lia.
Qed.

Lemma ticks_frames F prev target (n : nat) : forall k,
  ticks (flat_map (fade_frame F prev target) (zseq k n)) = Z.of_nat n.
Proof.
  induction n as [| n IH]; intros k; [reflexivity|].
  cbn [zseq flat_map]. rewrite ticks_app, IH.
  unfold ticks, fade_frame. cbn [filter is_delay length]. lia.
Qed.

Lemma ticks_fade F prev target : 0 <= F -> ticks (fade_trace F prev target) = F.
Proof. intros HF. unfold fade_trace. rewrite ticks_frames. lia. Qed.

Lemma ticks_element F H prev target :
  0 <= F -> 0 <= H -> ticks (element_trace F H prev target) = F + H.
Proof.
  intros HF HH. unfold element_trace.
  rewrite !ticks_app, ticks_fade, ticks_hold, ticks_leds by assumption.
  destruct (F =? 0); [rewrite ticks_leds|]; reflexivity.
Qed.

Lemma run_trace_app s t1 t2 :
  run_trace s (t1 ++ t2) = run_trace (run_trace s t1) t2.
Proof. unfold run_trace. apply fold_left_app. Qed.

Lemma run_trace_hold s H : run_trace s (hold_trace H) = s.
Proof.
  unfold hold_trace, run_trace.
  induction (Z.to_nat H) as [| n IH]; [reflexivity|]. simpl. exact IH.
Qed.

Lemma run_trace_leds s x :
  run_trace s (leds_trace x) = mkLeds (level_r x) (level_b x) (level_g x).
Proof. reflexivity. Qed.

(** ** Ticks of a pass *)

Lemma ticks_entries tab (n : nat) : forall k,
  (forall i, k <= i < k + Z.of_nat n ->
     exists e, pgm_read tab i = Ok e /\ 0 <= fadeTime e /\ 0 <= holdTime e) ->
  ticks (flat_map (entry_trace tab) (zseq k n))
  = fold_right Z.add 0 (map (duration_at tab) (zseq k n)).
Proof.
  induction n as [| n IH]; intros k Hall; [reflexivity|].
  cbn [zseq flat_map map fold_right]. rewrite ticks_app.
  rewrite IH by (intros i Hi; apply Hall; lia).
  destruct (Hall k ltac:(lia)) as (e & Hread & HF & HH).
  assert (Hd : duration_at tab k = duration e)
    by (unfold duration_at; rewrite Hread; reflexivity).
  assert (Ht : entry_trace tab k
               = element_trace (fadeTime e) (holdTime e) (previous tab k) (inverted e))
    by (unfold entry_trace; rewrite Hread; reflexivity).
  rewrite Hd, Ht, ticks_element by assumption. reflexivity.
Qed.

Lemma durations_of_body tab rest (body : list rgbElement) : forall pre,
  tab = pre ++ body ++ rest ->
  fold_right Z.add 0
    (map (duration_at tab) (zseq (Z.of_nat (length pre)) (length body)))
  = total_duration body.
Proof.
  induction body as [| e body IH]; intros pre Htab; [reflexivity|].
  cbn [length zseq map fold_right total_duration].
  assert (Hread : pgm_read tab (Z.of_nat (length pre)) = Ok e).
  { apply pgm_read_nth. split; [lia|].
    rewrite Nat2Z.id, Htab, nth_error_app2 by lia.
    rewrite Nat.sub_diag. reflexivity. }
  assert (Hd : duration_at tab (Z.of_nat (length pre)) = duration e)
    by (unfold duration_at; rewrite Hread; reflexivity).
  rewrite Hd.
  specialize (IH (pre ++ [e])).
  rewrite length_app in IH. cbn [length] in IH.
  replace (Z.of_nat (length pre + 1)) with (Z.of_nat (length pre) + 1) in IH by lia.
  rewrite IH; [reflexivity|].
  rewrite Htab, <- app_assoc. reflexivity.
Qed.

Lemma pass_ticks tab body last rest :
  tab = body ++ last :: rest ->
  Forall wf_element body ->
  ticks (pass_trace tab (length body)) = total_duration body.
Proof.
  intros Htab Hwf. unfold pass_trace.
  rewrite ticks_entries.
  - apply (durations_of_body tab (last :: rest) body []). exact Htab.
  - intros i Hi.
    destruct (nth_error body (Z.to_nat i)) as [e |] eqn:He.
    + exists e. rewrite Forall_forall in Hwf.
      destruct (Hwf e (nth_error_In _ _ He)) as (HF & HH & _).
      split; [| lia].
      apply pgm_read_nth. split; [lia|].
      rewrite Htab, nth_error_app1 by lia. exact He.
    + apply nth_error_None in He. lia.
Qed.

(** ** The table of the firmware *)

Lemma lightTab_shape : lightTab = keyframes lightTab ++ sentinel :: [].
Proof. reflexivity. Qed.

Lemma lightTab_length : length (keyframes lightTab) = 98%nat.
Proof. reflexivity. Qed.

Lemma lightTab_wf : Forall wf_element (keyframes lightTab).
Proof. apply (forallb_sound wf_elementb); [apply wf_elementb_sound | reflexivity]. Qed.

Lemma lightTab_colours : Forall wf_colours lightTab.
Proof. apply (forallb_sound wf_coloursb); [apply wf_coloursb_sound | reflexivity]. Qed.

Lemma lightTab_fits (fuel : nat) :
  7000 <= Z.of_nat fuel -> Forall (fits fuel) (keyframes lightTab).
Proof.
  intros Hfuel.
  apply (forallb_sound (shorterb 7000)); [| reflexivity].
  intros e. apply shorterb_sound. exact Hfuel.
Qed.

Lemma lightTab_unmarked :
  Forall (fun e => is_last e = false) (keyframes lightTab).
Proof.
  apply (forallb_sound (fun e => negb (is_last e))); [| reflexivity].
  intros e H. apply negb_true_iff. exact H.
Qed.

Lemma lightTab_pass (fuel : nat) :
  7000 <= Z.of_nat fuel ->
  do_while fuel fuel lightTab 0 = Ok (98, pass_trace lightTab 98).
Proof.
  intros Hfuel.
  apply (pass_closed fuel lightTab (keyframes lightTab) [] sentinel).
  - exact lightTab_shape.
  - reflexivity.
  - exact lightTab_wf.
  - exact lightTab_colours.
  - apply lightTab_fits. exact Hfuel.
  - apply (Forall_inv_tail lightTab_unmarked).
  - rewrite lightTab_length. unfold Int16.INT_MAX. lia.
  - discriminate.
  - rewrite lightTab_length. lia.
Qed.

Lemma lightTab_count_loop (fuel count : nat) :
  7000 <= Z.of_nat fuel ->
  count_loop fuel count lightTab 0
  = Ok (0, concat (repeat (pass_trace lightTab 98) count)).
Proof.
  intros Hfuel.
  apply (count_loop_closed fuel lightTab (keyframes lightTab) [] sentinel).
  - exact lightTab_shape.
  - reflexivity.
  - exact lightTab_wf.
  - exact lightTab_colours.
  - apply lightTab_fits. exact Hfuel.
  - apply (Forall_inv_tail lightTab_unmarked).
  - rewrite lightTab_length. unfold Int16.INT_MAX. lia.
  - discriminate.
  - rewrite lightTab_length. lia.
Qed.

Lemma lightTab_pass_ticks : ticks (pass_trace lightTab 98) = 366000.
Proof.
  change 98%nat with (length (keyframes lightTab)).
  rewrite (pass_ticks lightTab (keyframes lightTab) sentinel []
             lightTab_shape lightTab_wf).
  reflexivity.
Qed.

(** ** One entry *)

Lemma Ok_inj {A} (a b : A) : Ok a = Ok b -> a = b.
Proof. intros H. injection H as H. exact H. Qed.

Lemma playable_closed fuel tab index e :
  playable fuel tab index e ->
  sendrgbElement fuel tab index
  = Ok (element_trace (fadeTime e) (holdTime e) (previous tab index) (inverted e)).
Proof.
  intros (Htab & Hread & Hidx & Hwf & HfF & HfH).
  apply sendrgbElement_closed; assumption.
Qed.

Lemma playable_levels fuel tab index e :
  playable fuel tab index e ->
  wf_rgb (previous tab index) /\ wf_rgb (inverted e).
Proof.
  intros (Htab & Hread & Hidx & (_ & _ & Hcol) & _).
  split; [apply previous_range | apply inverted_range]; assumption.
Qed.

Lemma level_range r x : wf_rgb x -> UChar.in_range (level r x).
Proof. intros (Hr & Hg & Hb). destruct r; assumption. Qed.

Lemma fade_trace_none prev target : fade_trace 0 prev target = [].
Proof. reflexivity. Qed.

Lemma map_constant {A B} (f : A -> B) (c : B) (l : list A) :
  (forall x, In x l -> f x = c) -> map f l = repeat c (length l).
Proof.
  induction l as [| a l IH]; intros H; [reflexivity|].
  simpl. rewrite (H a) by (left; reflexivity).
  rewrite IH by (intros x Hx; apply H; right; exact Hx). reflexivity.
Qed.

Lemma pass_trace_snoc tab (n : nat) :
  pass_trace tab (S n) = pass_trace tab n ++ entry_trace tab (Z.of_nat n).
Proof.
  unfold pass_trace.
  assert (E : forall m k, zseq k (S m) = zseq k m ++ [k + Z.of_nat m]).
  { induction m as [| m IH]; intros k.
    - simpl. f_equal. lia.
    - change (zseq k (S (S m))) with (k :: zseq (k + 1) (S m)).
      rewrite IH. cbn [zseq app]. do 3 f_equal. lia. }
  rewrite E, flat_map_app. cbn [flat_map]. rewrite app_nil_r. reflexivity.
Qed.

(** With [fadeTime] at [INT_MAX] the counter of the fade loop wraps before
    it can exceed the bound: the loop never ends. *)
Remark fade_loop_at_INT_MAX (fuel : nat) : forall fadeCounter r g b,
  Int16.in_range fadeCounter ->
  fade_loop fuel fadeCounter Int16.INT_MAX r g b = OutOfFuel.
Proof.
  induction fuel as [| fuel IH]; intros c r g b Hc;
    assert (Hgo : (c <=? Int16.INT_MAX) = true)
      by (apply Z.leb_le; unfold Int16.in_range in Hc; lia);
    simpl; rewrite Hgo; [reflexivity|].
  rewrite IH; [reflexivity|].
  unfold Int16.add, Int16.wrap, Int16.in_range, Int16.INT_MIN, Int16.INT_MAX.
  pose proof (Z.mod_pos_bound (c + 1 + 32768) 65536 ltac:(lia)). lia.
Qed.

(** ** The model run on entries of the table *)

Example colourTime_up : colourTime 500 (colourDelta 255 0) = 2.
Proof. reflexivity. Qed.

Example colourTime_down : colourTime 500 (colourDelta 0 255) = 2.
Proof. reflexivity. Qed.

Example colourTime_slow : colourTime 7000 (colourDelta 100 0) = 71.
Proof. reflexivity. Qed.

Example entry_0_runs :
  sendrgbElement 500 lightTab 0
  = Ok (set_leds 255 255 255 ++ set_leds 255 255 255 ++ repeat (Delay 100) 500).
Proof. vm_compute. reflexivity. Qed.

Example entry_1_runs : sendrgbElement 500 lightTab 1 = Ok (entry_trace lightTab 1).
Proof. vm_compute. reflexivity. Qed.

Example entry_1_red_starts :
  firstn 5 (written OCR1A (entry_trace lightTab 1)) = [255; 254; 254; 253; 253].
Proof. vm_compute. reflexivity. Qed.

Example entry_1_red_ends :
  skipn 498 (written OCR1A (entry_trace lightTab 1)) = [6; 5; 0].
Proof. vm_compute. reflexivity. Qed.

Example entry_58_runs :
  sendrgbElement 1000 lightTab 58 = Ok (entry_trace lightTab 58).
Proof. vm_compute. reflexivity. Qed.

Example entry_1_out_of_fuel : sendrgbElement 10 lightTab 1 = OutOfFuel.
Proof. vm_compute. reflexivity. Qed.

Example entry_99_out_of_bounds : sendrgbElement 10 lightTab 99 = OutOfBounds.
Proof. vm_compute. reflexivity. Qed.

(** * The properties of the player *)

Ltac in_ranges :=
  unfold wf_rgb, wf_element, wf_colours, fits, UChar.in_range,
    Int16.in_range, Int16.INT_MIN, Int16.INT_MAX;
  cbn [fadeTime holdTime red green blue level level_r level_g level_b];
  try lia.

(** Entry [index] of the firmware's table can be played. *)
Ltac play_lightTab :=
  split; [exact lightTab_colours |];
  split; [reflexivity |];
  split; [in_ranges |];
  split; in_ranges.

(** Claim C1, as amended.  For an entry with [fadeTime = 0] the fade loop
    makes no iteration, and [sendrgbElement] writes the target level (255
    minus the stored intensity) to every compare register twice in a row:
    once in the [FadeTime == 0] branch and once more after the (empty) fade
    loop, with no delay in between; the hold delays follow. *)
Theorem blink_sets_leds_twice (fuel : nat) tab index e :
  playable fuel tab index e ->
  fadeTime e = 0 ->
  (forall r g b, fade_loop fuel 1 (fadeTime e) r g b = Ok []) /\
  sendrgbElement fuel tab index
  = Ok (leds_trace (inverted e) ++ leds_trace (inverted e)
          ++ hold_trace (holdTime e)) /\
  forall r,
    written r (leds_trace (inverted e) ++ leds_trace (inverted e)
                 ++ hold_trace (holdTime e))
    = [level r (inverted e); level r (inverted e)].
Proof.
  intros Hplay HF. split; [| split].
  - intros r g b. rewrite HF. destruct fuel; reflexivity.
  - rewrite (playable_closed _ _ _ _ Hplay). unfold element_trace.
    rewrite HF, fade_trace_none. reflexivity.
  - intros r. rewrite !written_app, !written_leds, written_hold. reflexivity.
Qed.

Lemma blink_sets_leds_twice_witness :
  playable 500 lightTab 0 (mkElement 0 500 0 0 0) /\
  sendrgbElement 500 lightTab 0
  = Ok (leds_trace (mkRgb 255 255 255) ++ leds_trace (mkRgb 255 255 255)
          ++ hold_trace 500) /\
  written OCR1A (leds_trace (mkRgb 255 255 255) ++ leds_trace (mkRgb 255 255 255)
                   ++ hold_trace 500) = [255; 255].
Proof.
  assert (Hplay : playable 500 lightTab 0 (mkElement 0 500 0 0 0))
    by play_lightTab.
  split; [exact Hplay |].
  destruct (blink_sets_leds_twice 500 lightTab 0 (mkElement 0 500 0 0 0)
              Hplay eq_refl) as (_ & Hsend & Hwritten).
  split; [exact Hsend | exact (Hwritten OCR1A)].
Defined.

(** Claim C1 as stated fails: entry 0 of the table has [fadeTime = 0], and
    playing it writes every compare register twice, not once. *)
Lemma blink_not_one_update :
  fadeTime (mkElement 0 500 0 0 0) = 0 /\
  pgm_read lightTab 0 = Ok (mkElement 0 500 0 0 0) /\
  ~ (forall t, sendrgbElement 500 lightTab 0 = Ok t ->
       forall r, length (written r t) = 1%nat).
Proof.
  split; [reflexivity | split; [reflexivity |]].
  intros H.
  specialize (H (set_leds 255 255 255 ++ set_leds 255 255 255
                   ++ repeat (Delay 100) 500) ltac:(vm_compute; reflexivity) OCR1A).
  vm_compute in H. discriminate H.
Qed.

(** Claim C2.  For a fade time above 0 and a colour whose delta is not 0,
    the step interval is the absolute value of the truncating quotient
    [FadeTime / delta] plus 1, and in the fade loop the colour has moved by
    one unit every that many ticks.  For previous level 0, fade time 500 and
    target 255 the interval is [500 / 255 + 1 = 2]. *)
Theorem step_interval_value (fuel : nat) (F : Z) (prev target : rgb) (r : register) :
  0 < F < Int16.INT_MAX ->
  F <= Z.of_nat fuel ->
  wf_rgb prev -> wf_rgb target ->
  colourDelta (level r target) (level r prev) <> 0 ->
  colourDelta (level r target) (level r prev) = level r target - level r prev /\
  colourTime F (colourDelta (level r target) (level r prev))
  = Z.abs (F ÷ (level r target - level r prev)) + 1 /\
  fade_loop fuel 1 F
    (colourInit F (level_r target) (level_r prev))
    (colourInit F (level_g target) (level_g prev))
    (colourInit F (level_b target) (level_b prev))
  = Ok (fade_trace F prev target) /\
  written r (fade_trace F prev target)
  = map (fun tick =>
           level r prev
           + Z.sgn (level r target - level r prev)
             * (tick / (Z.abs (F ÷ (level r target - level r prev)) + 1)))
        (zseq 1 (Z.to_nat F)).
Proof.
  intros HF Hfuel Hprev Htarget Hdelta.
  pose proof (level_range r _ Hprev) as Hp.
  pose proof (level_range r _ Htarget) as Ht.
  rewrite (colourDelta_closed _ _ Ht Hp) in *.
  destruct Hprev as (Hpr & Hpg & Hpb). destruct Htarget as (Htr & Htg & Htb).
  split; [reflexivity |]. split; [| split].
  - apply colourTime_closed; [lia | assumption].
  - apply fade_loop_trace; try assumption. lia.
  - rewrite written_fade. apply map_ext. intros k.
    apply ramp_moving. assumption.
Qed.

Lemma step_interval_value_witness :
  0 < 500 < Int16.INT_MAX /\
  colourDelta 255 0 <> 0 /\
  colourTime 500 (colourDelta 255 0) = 2 /\
  written OCR1A (fade_trace 500 (mkRgb 0 0 0) (mkRgb 255 0 0))
  = map (fun tick => 0 + 1 * (tick / 2)) (zseq 1 500).
Proof.
  assert (HF : 0 < 500 < Int16.INT_MAX) by (unfold Int16.INT_MAX; lia).
  assert (Hd : colourDelta 255 0 <> 0) by (vm_compute; discriminate).
  split; [exact HF |]. split; [exact Hd |].
  destruct (step_interval_value 500 500 (mkRgb 0 0 0) (mkRgb 255 0 0) OCR1A
              HF ltac:(lia) ltac:(in_ranges) ltac:(in_ranges) Hd)
    as (_ & Htime & _ & Hwritten).
  split; [exact Htime | exact Hwritten].
Defined.

(** Claim C3.  Whatever the fade loop has emitted, [sendrgbElement] then
    writes the target levels of the entry (255 minus the stored
    intensities) to the three compare registers and only delays afterwards:
    the registers hold exactly the target levels once the fade is over. *)
Theorem final_levels_are_target (fuel : nat) tab index e :
  playable fuel tab index e ->
  sendrgbElement fuel tab index
  = Ok (((if fadeTime e =? 0 then leds_trace (inverted e) else [])
           ++ fade_trace (fadeTime e) (previous tab index) (inverted e))
          ++ [Write OCR1A (255 - red e); Write OCR1B (255 - blue e);
              Write OCR0A (255 - green e)]
          ++ hold_trace (holdTime e)) /\
  forall s t,
    sendrgbElement fuel tab index = Ok t ->
    run_trace s t = mkLeds (255 - red e) (255 - blue e) (255 - green e) /\
    forall r, List.last (written r t) 0 = level r (inverted e).
Proof.
  intros Hplay.
  pose proof (playable_closed _ _ _ _ Hplay) as Hsend.
  unfold element_trace in Hsend. rewrite app_assoc in Hsend.
  split; [exact Hsend |].
  intros s t Ht. rewrite Hsend in Ht. apply Ok_inj in Ht. subst t.
  split.
  - rewrite !run_trace_app, run_trace_hold, run_trace_leds. reflexivity.
  - intros r. rewrite !written_app, written_hold, written_leds, app_nil_r.
    apply last_last.
Qed.

Lemma final_levels_are_target_witness :
  playable 500 lightTab 1 (mkElement 500 500 255 0 0) /\
  forall s t,
    sendrgbElement 500 lightTab 1 = Ok t ->
    run_trace s t = mkLeds 0 255 255.
Proof.
  assert (Hplay : playable 500 lightTab 1 (mkElement 500 500 255 0 0))
    by play_lightTab.
  split; [exact Hplay |].
  intros s t Ht.
  exact (proj1 (proj2 (final_levels_are_target 500 lightTab 1
                         (mkElement 500 500 255 0 0) Hplay) s t Ht)).
Defined.

(** Claim C4.  A colour whose delta is 0 keeps its previous level in every
    iteration of the fade loop. *)
Theorem still_colour_is_constant (fuel : nat) tab index e (r : register) :
  playable fuel tab index e ->
  colourDelta (level r (inverted e)) (level r (previous tab index)) = 0 ->
  sendrgbElement fuel tab index
  = Ok (element_trace (fadeTime e) (holdTime e) (previous tab index) (inverted e)) /\
  written r (fade_trace (fadeTime e) (previous tab index) (inverted e))
  = repeat (level r (previous tab index)) (Z.to_nat (fadeTime e)).
Proof.
  intros Hplay Hdelta.
  destruct (playable_levels _ _ _ _ Hplay) as [Hprev Htarget].
  rewrite (colourDelta_closed _ _ (level_range r _ Htarget) (level_range r _ Hprev))
    in Hdelta.
  split; [apply playable_closed; exact Hplay |].
  rewrite written_fade.
  rewrite (map_constant _ (level r (previous tab index))).
  - rewrite zseq_length. reflexivity.
  - intros k _. apply ramp_still. exact Hdelta.
Qed.

Lemma still_colour_is_constant_witness :
  playable 500 lightTab 1 (mkElement 500 500 255 0 0) /\
  colourDelta (level OCR0A (inverted (mkElement 500 500 255 0 0)))
              (level OCR0A (previous lightTab 1)) = 0 /\
  written OCR0A (fade_trace 500 (previous lightTab 1)
                   (inverted (mkElement 500 500 255 0 0)))
  = repeat 255 500.
Proof.
  assert (Hplay : playable 500 lightTab 1 (mkElement 500 500 255 0 0))
    by play_lightTab.
  split; [exact Hplay |]. split; [reflexivity |].
  exact (proj2 (still_colour_is_constant 500 lightTab 1
                  (mkElement 500 500 255 0 0) OCR0A Hplay eq_refl)).
Defined.

(** Claim C9.  With a fade time above 0, the level a colour has in any
    iteration of the fade loop lies between its previous level and its
    target level: the step interval exceeds [fadeTime / |delta|], so fewer
    than [|delta|] one-unit adjustments have been made, and the unsigned
    8-bit level neither passes the target nor wraps. *)
Theorem fade_stays_between (fuel : nat) tab index e (r : register) :
  playable fuel tab index e ->
  0 < fadeTime e ->
  sendrgbElement fuel tab index
  = Ok (element_trace (fadeTime e) (holdTime e) (previous tab index) (inverted e)) /\
  forall tick, 1 <= tick <= fadeTime e ->
    exists v,
      nth_error (written r (fade_trace (fadeTime e) (previous tab index) (inverted e)))
                (Z.to_nat (tick - 1)) = Some v /\
      Z.min (level r (previous tab index)) (level r (inverted e)) <= v
        <= Z.max (level r (previous tab index)) (level r (inverted e)) /\
      UChar.in_range v /\
      (colourDelta (level r (inverted e)) (level r (previous tab index)) <> 0 ->
       fadeTime e
         < colourTime (fadeTime e)
             (colourDelta (level r (inverted e)) (level r (previous tab index)))
           * Z.abs (level r (inverted e) - level r (previous tab index)) /\
       Z.abs (v - level r (previous tab index))
         < Z.abs (level r (inverted e) - level r (previous tab index))).
Proof.
  intros Hplay HF.
  destruct (playable_levels _ _ _ _ Hplay) as [Hprev Htarget].
  pose proof (level_range r _ Hprev) as Hp.
  pose proof (level_range r _ Htarget) as Ht.
  assert (Hwf : 0 <= fadeTime e < Int16.INT_MAX)
    by (destruct Hplay as (_ & _ & _ & (H & _) & _); exact H).
  split; [apply playable_closed; exact Hplay |].
  intros k Hk.
  exists (ramp (fadeTime e) (level r (previous tab index)) (level r (inverted e)) k).
  rewrite written_fade.
  pose proof (ramp_between (fadeTime e) (level r (previous tab index))
                (level r (inverted e)) k ltac:(lia)) as Hbetween.
  split; [| split; [exact Hbetween | split]].
  - rewrite nth_error_map, zseq_nth by lia.
    cbn [option_map]. do 2 f_equal. lia.
  - unfold UChar.in_range in *. lia.
  - rewrite (colourDelta_closed _ _ Ht Hp). intros Hd.
    rewrite colourTime_closed by assumption.
    split; [apply interval_exceeds; [lia | exact Hd] |].
    rewrite ramp_moving by exact Hd.
    pose proof (adjustments_bound (fadeTime e) _ k ltac:(lia) Hd). lia.
Qed.

Lemma fade_stays_between_witness :
  playable 500 lightTab 1 (mkElement 500 500 255 0 0) /\
  0 < fadeTime (mkElement 500 500 255 0 0) /\
  exists v,
    nth_error (written OCR1A (fade_trace 500 (mkRgb 255 255 255) (mkRgb 0 255 255)))
              (Z.to_nat (500 - 1)) = Some v /\
    Z.min 255 0 <= v <= Z.max 255 0.
Proof.
  assert (Hplay : playable 500 lightTab 1 (mkElement 500 500 255 0 0))
    by play_lightTab.
  assert (HF : 0 < fadeTime (mkElement 500 500 255 0 0)) by (cbn; lia).
  split; [exact Hplay |]. split; [exact HF |].
  destruct (proj2 (fade_stays_between 500 lightTab 1 (mkElement 500 500 255 0 0)
                     OCR1A Hplay HF) 500 ltac:(cbn; lia))
    as (v & Hnth & Hbetween & _).
  exists v. split; [exact Hnth | exact Hbetween].
Defined.

(** Claim C10.  The inversion for the common-anode LED is made by
    [sendrgbElement] itself: what it emits is the fade from the inverted
    colour of the table entry before [index] (from level 0 when
    [index = 0]) to the inverted colour of entry [index], where inverted
    means 255 minus the stored intensity.  The previous levels come from
    the table, [sendrgbElement] neither takes nor returns any. *)
Theorem inversion_inside_engine (fuel : nat) tab index e :
  playable fuel tab index e ->
  let target := mkRgb (255 - red e) (255 - green e) (255 - blue e) in
  (index = 0 ->
   sendrgbElement fuel tab index
   = Ok (element_trace (fadeTime e) (holdTime e) (mkRgb 0 0 0) target)) /\
  (index <> 0 ->
   exists p,
     pgm_read tab (index - 1) = Ok p /\
     sendrgbElement fuel tab index
     = Ok (element_trace (fadeTime e) (holdTime e)
             (mkRgb (255 - red p) (255 - green p) (255 - blue p)) target)) /\
  (forall t, sendrgbElement fuel tab index = Ok t ->
     In (Write OCR1A (255 - red e)) t /\
     In (Write OCR1B (255 - blue e)) t /\
     In (Write OCR0A (255 - green e)) t).
Proof.
  intros Hplay target.
  pose proof (playable_closed _ _ _ _ Hplay) as Hsend.
  destruct Hplay as (_ & Hread & _).
  split; [| split].
  - intros ->. exact Hsend.
  - intros Hne.
    assert (Hpos : 0 < index) by (apply pgm_read_nth in Hread; lia).
    destruct (pgm_read_before tab index e Hread Hpos) as [p Hp].
    exists p. split; [exact Hp |].
    rewrite Hsend. unfold previous.
    destruct (Z.eqb_spec index 0); [contradiction |].
    rewrite Hp. reflexivity.
  - intros t Ht. rewrite Hsend in Ht. apply Ok_inj in Ht. subst t.
    unfold element_trace, leds_trace, set_leds, inverted.
    cbn [level_r level_g level_b].
    repeat split; do 2 (apply in_or_app; right);
      apply in_or_app; left; simpl; tauto.
Qed.

Lemma inversion_inside_engine_witness :
  playable 500 lightTab 1 (mkElement 500 500 255 0 0) /\
  exists p,
    pgm_read lightTab (1 - 1) = Ok p /\
    sendrgbElement 500 lightTab 1
    = Ok (element_trace 500 500
            (mkRgb (255 - red p) (255 - green p) (255 - blue p))
            (mkRgb 0 255 255)).
Proof.
  assert (Hplay : playable 500 lightTab 1 (mkElement 500 500 255 0 0))
    by play_lightTab.
  split; [exact Hplay |].
  exact (proj1 (proj2 (inversion_inside_engine 500 lightTab 1
                         (mkElement 500 500 255 0 0) Hplay))
           ltac:(discriminate)).
Defined.

(** Claim C7.  [lightTab] is not empty; it is its 98 keyframes followed by
    one end marker with [fadeTime = 0] and [holdTime = 0]; no keyframe
    before the marker has both durations 0. *)
Theorem lightTab_ends_with_one_marker :
  lightTab <> [] /\
  lightTab = keyframes lightTab ++ [sentinel] /\
  length (keyframes lightTab) = 98%nat /\
  fadeTime sentinel = 0 /\ holdTime sentinel = 0 /\
  Forall (fun e => ~ (fadeTime e = 0 /\ holdTime e = 0)) (keyframes lightTab) /\
  filter is_last lightTab = [sentinel].
Proof.
  split; [discriminate |].
  split; [reflexivity |]. split; [reflexivity |].
  split; [reflexivity |]. split; [reflexivity |].
  split; [| reflexivity].
  eapply Forall_impl; [| exact lightTab_unmarked].
  intros e He [HF HH]. unfold is_last in He.
  rewrite HF, HH in He. discriminate He.
Qed.

(** Claim C5.  A pass over [lightTab] ends: started at entry 0, the
    do-while plays the 98 keyframes, one after the other, and stops with
    [index] on the end marker; so does every one of the 360 passes of
    [main]. *)
Theorem pass_terminates (fuel : nat) :
  7000 <= Z.of_nat fuel ->
  do_while fuel fuel lightTab 0 = Ok (98, pass_trace lightTab 98) /\
  Z.of_nat (length (keyframes lightTab)) = 98 /\
  pgm_read lightTab 98 = Ok sentinel /\
  (forall i, 0 <= i < 98 ->
     sendrgbElement fuel lightTab i = Ok (entry_trace lightTab i)) /\
  main fuel lightTab
  = Ok ([Initialize] ++ concat (repeat (pass_trace lightTab 98) 360)
          ++ [Teardown]).
Proof.
  intros Hfuel.
  split; [apply lightTab_pass; exact Hfuel |].
  split; [reflexivity |]. split; [reflexivity |]. split.
  - intros i Hi.
    apply (sendrgbElement_body fuel lightTab (keyframes lightTab) [] sentinel).
    + exact lightTab_shape.
    + exact lightTab_wf.
    + exact lightTab_colours.
    + apply lightTab_fits. exact Hfuel.
    + rewrite lightTab_length. unfold Int16.INT_MAX. lia.
    + rewrite lightTab_length. lia.
  - unfold main. rewrite lightTab_count_loop by exact Hfuel.
    cbn [bind snd]. reflexivity.
Qed.

Lemma pass_terminates_witness :
  7000 <= Z.of_nat (Z.to_nat 7000) /\
  do_while (Z.to_nat 7000) (Z.to_nat 7000) lightTab 0
  = Ok (98, pass_trace lightTab 98).
Proof.
  assert (Hfuel : 7000 <= Z.of_nat (Z.to_nat 7000)) by lia.
  split; [exact Hfuel |].
  exact (proj1 (pass_terminates (Z.to_nat 7000) Hfuel)).
Defined.

(** Claim C6.  The end marker of [lightTab] is found by the test of the
    do-while, which leaves the loop with [index] on it: entry 98 is never
    passed to [sendrgbElement], the trace of a pass ends with what entry 97
    emits, and the next pass starts again with entry 0. *)
Theorem sentinel_restarts_pass (fuel count : nat) :
  7000 <= Z.of_nat fuel ->
  pgm_read lightTab 98 = Ok sentinel /\
  is_last sentinel = true /\
  do_while fuel fuel lightTab 0
  = Ok (98, pass_trace lightTab 97 ++ entry_trace lightTab 97) /\
  ~ In 98 (zseq 0 98) /\
  count_loop fuel (S count) lightTab 0
  = Ok (0, (pass_trace lightTab 97 ++ entry_trace lightTab 97)
             ++ concat (repeat (entry_trace lightTab 0
                                  ++ flat_map (entry_trace lightTab) (zseq 1 97))
                          count)).
Proof.
  intros Hfuel.
  assert (Hsnoc : pass_trace lightTab 98
                  = pass_trace lightTab 97 ++ entry_trace lightTab 97)
    by apply (pass_trace_snoc lightTab 97).
  assert (Hcons : pass_trace lightTab 98
                  = entry_trace lightTab 0
                      ++ flat_map (entry_trace lightTab) (zseq 1 97))
    by reflexivity.
  split; [reflexivity |]. split; [reflexivity |]. split; [| split].
  - rewrite <- Hsnoc. apply lightTab_pass. exact Hfuel.
  - rewrite zseq_In. lia.
  - rewrite <- Hsnoc, <- Hcons.
    rewrite lightTab_count_loop by exact Hfuel. reflexivity.
Qed.

Lemma sentinel_restarts_pass_witness :
  7000 <= Z.of_nat (Z.to_nat 7000) /\
  do_while (Z.to_nat 7000) (Z.to_nat 7000) lightTab 0
  = Ok (98, pass_trace lightTab 97 ++ entry_trace lightTab 97).
Proof.
  assert (Hfuel : 7000 <= Z.of_nat (Z.to_nat 7000)) by lia.
  split; [exact Hfuel |].
  exact (proj1 (proj2 (proj2 (sentinel_restarts_pass (Z.to_nat 7000) 1 Hfuel)))).
Defined.

(** Claim C8, on the code.  Every iteration of the fade loop and of the
    hold loop calls the tick delay once, so an entry takes
    [fadeTime + holdTime] ticks and a pass over [lightTab] takes the sum of
    these over the 98 keyframes.  For the table of the firmware that sum is
    366000 ticks (227500 of fading and 138500 of holding), where the
    comment above the table gives 121000, 134000 and 259000. *)
Theorem pass_takes_sum_of_durations (fuel : nat) :
  7000 <= Z.of_nat fuel ->
  do_while fuel fuel lightTab 0 = Ok (98, pass_trace lightTab 98) /\
  (forall i e, 0 <= i < 98 -> pgm_read lightTab i = Ok e ->
     sendrgbElement fuel lightTab i = Ok (entry_trace lightTab i) /\
     ticks (fade_trace (fadeTime e) (previous lightTab i) (inverted e)) = fadeTime e /\
     ticks (hold_trace (holdTime e)) = holdTime e /\
     ticks (entry_trace lightTab i) = fadeTime e + holdTime e) /\
  ticks (pass_trace lightTab 98) = total_duration (keyframes lightTab) /\
  total_duration (keyframes lightTab) = 366000 /\
  fold_right Z.add 0 (map fadeTime (keyframes lightTab)) = 227500 /\
  fold_right Z.add 0 (map holdTime (keyframes lightTab)) = 138500.
Proof.
  intros Hfuel.
  split; [apply lightTab_pass; exact Hfuel |].
  split; [| split; [rewrite lightTab_pass_ticks; reflexivity |
                    split; [reflexivity | split; reflexivity]]].
  intros i e Hi Hread.
  assert (Hwf : wf_element e).
  { pose proof lightTab_wf as H. rewrite Forall_forall in H. apply H.
    apply pgm_read_nth in Hread. destruct Hread as [_ Hnth].
    rewrite lightTab_shape, nth_error_app1 in Hnth
      by (rewrite lightTab_length; lia).
    eapply nth_error_In; exact Hnth. }
  destruct Hwf as (HF & HH & _).
  split; [| split; [apply ticks_fade; lia | split; [apply ticks_hold; lia |]]].
  - apply (sendrgbElement_body fuel lightTab (keyframes lightTab) [] sentinel).
    + exact lightTab_shape.
    + exact lightTab_wf.
    + exact lightTab_colours.
    + apply lightTab_fits. exact Hfuel.
    + rewrite lightTab_length. unfold Int16.INT_MAX. lia.
    + rewrite lightTab_length. lia.
  - unfold entry_trace. rewrite Hread. apply ticks_element; lia.
Qed.

Lemma pass_takes_sum_of_durations_witness :
  7000 <= Z.of_nat (Z.to_nat 7000) /\
  do_while (Z.to_nat 7000) (Z.to_nat 7000) lightTab 0
  = Ok (98, pass_trace lightTab 98) /\
  ticks (pass_trace lightTab 98) = total_duration (keyframes lightTab) /\
  total_duration (keyframes lightTab) = 366000.
Proof.
  assert (Hfuel : 7000 <= Z.of_nat (Z.to_nat 7000)) by lia.
  split; [exact Hfuel |].
  destruct (pass_takes_sum_of_durations (Z.to_nat 7000) Hfuel)
    as (Hpass & _ & Hticks & Htotal & _).
  split; [exact Hpass | split; [exact Hticks | exact Htotal]].
Defined.

(** The table against the figure of its comment: the durations of the
    keyframes of [lightTab], and so the ticks of a pass, add up to 366000,
    which is not within a quarter of 259000. *)
Lemma pass_is_not_259000_ticks :
  ticks (pass_trace lightTab 98) = 366000 /\
  total_duration (keyframes lightTab) = 366000 /\
  ~ (4 * Z.abs (total_duration (keyframes lightTab) - 259000) <= 259000).
Proof.
  split; [exact lightTab_pass_ticks |]. split; [reflexivity |].
  vm_compute. intros H. apply H. reflexivity.
Qed.

(** * Further properties of the firmware *)

(** ** Entries with durations of any sign *)

Lemma fade_loop_skip (fuel : nat) F r g b :
  F < 1 -> fade_loop fuel 1 F r g b = Ok [].
Proof.
  intros HF. assert (H : (1 <=? F) = false) by (apply Z.leb_gt; lia).
  destruct fuel; simpl; rewrite H; reflexivity.
Qed.

Lemma hold_loop_skip (fuel : nat) H : H <= 0 -> hold_loop fuel 0 H = Ok [].
Proof.
  intros HH. assert (E : (0 <? H) = false) by (apply Z.ltb_ge; lia).
  destruct fuel; simpl; rewrite E; reflexivity.
Qed.

Lemma to_nat_nonpos z : z <= 0 -> Z.to_nat z = 0%nat.
Proof. intros H. destruct z; try reflexivity. lia. Qed.

Lemma fade_loop_any (fuel : nat) F prev target :
  F < Int16.INT_MAX -> F <= Z.of_nat fuel -> wf_rgb prev -> wf_rgb target ->
  fade_loop fuel 1 F
    (colourInit F (level_r target) (level_r prev))
    (colourInit F (level_g target) (level_g prev))
    (colourInit F (level_b target) (level_b prev))
  = Ok (fade_trace F prev target).
Proof.
  intros HF Hfuel (Hpr & Hpg & Hpb) (Htr & Htg & Htb).
  destruct (Z_lt_le_dec F 0) as [Hneg | Hpos].
  - rewrite fade_loop_skip by lia.
    unfold fade_trace. rewrite to_nat_nonpos by lia. reflexivity.
  - apply fade_loop_trace; try assumption. lia.
Qed.

Lemma hold_loop_any (fuel : nat) H :
  H <= Int16.INT_MAX -> H <= Z.of_nat fuel ->
  hold_loop fuel 0 H = Ok (hold_trace H).
Proof.
  intros HH Hfuel. destruct (Z_lt_le_dec H 0) as [Hneg | Hpos].
  - rewrite hold_loop_skip by lia.
    unfold hold_trace. rewrite to_nat_nonpos by lia. reflexivity.
  - apply hold_loop_trace; lia.
Qed.

Lemma sendrgbElement_any_duration (fuel : nat) tab index e :
  Forall wf_colours tab ->
  pgm_read tab index = Ok e ->
  index <= Int16.INT_MAX ->
  fadeTime e < Int16.INT_MAX -> holdTime e <= Int16.INT_MAX ->
  fits fuel e ->
  sendrgbElement fuel tab index
  = Ok (element_trace (fadeTime e) (holdTime e) (previous tab index) (inverted e)).
Proof.
  intros Htab Hread Hidx HF HH (HfuelF & HfuelH).
  assert (Hcol : wf_colours e).
  { rewrite Forall_forall in Htab. apply Htab. eapply pgm_read_In; eassumption. }
  pose proof (inverted_range e Hcol) as Htarget.
  pose proof (previous_range tab index Htab) as Hprev.
  pose proof (fade_loop_any fuel (fadeTime e) (previous tab index) (inverted e)
                HF HfuelF Hprev Htarget) as Hfade.
  pose proof (hold_loop_any fuel (holdTime e) HH HfuelH) as Hhold.
  assert (Hidx0 : 0 <= index) by (apply pgm_read_nth in Hread; tauto).
  destruct Hcol as (Hcr & Hcg & Hcb).
  unfold sendrgbElement. rewrite Hread. cbn [bind].
  rewrite !uchar_wrap_id by (unfold UChar.in_range in *; lia).
  unfold previous in *.
  destruct (Z.eqb_spec index 0) as [-> | Hne]; cbn [negb bind].
  - cbn [level_r level_g level_b inverted] in Hfade.
    rewrite Hfade, Hhold. reflexivity.
  - destruct (pgm_read_before tab index e Hread ltac:(lia)) as [p Hp].
    unfold Int16.sub. rewrite int16_wrap_id
      by (unfold Int16.in_range, Int16.INT_MIN, Int16.INT_MAX in *; lia).
    rewrite Hp in *. cbn [bind].
    assert (Hpc : wf_colours p).
    { rewrite Forall_forall in Htab. apply Htab. eapply pgm_read_In; eassumption. }
    destruct Hpc as (Hp1 & Hp2 & Hp3).
    rewrite !uchar_wrap_id by (unfold UChar.in_range in *; lia).
    cbn [level_r level_g level_b inverted] in Hfade.
    rewrite Hfade, Hhold. reflexivity.
Qed.

Lemma odd_table_colours : Forall wf_colours odd_table.
Proof. apply (forallb_sound wf_coloursb); [apply wf_coloursb_sound | reflexivity]. Qed.

(** X1.  An entry with a fade time below zero is shown at once, like one
    with fade time 0, but its levels are written once only: neither the
    [FadeTime == 0] branch nor the fade loop runs. *)
Theorem negative_fade_sets_leds_once (fuel : nat) tab index e :
  Forall wf_colours tab ->
  pgm_read tab index = Ok e ->
  index <= Int16.INT_MAX ->
  fadeTime e < 0 ->
  holdTime e <= Int16.INT_MAX -> holdTime e <= Z.of_nat fuel ->
  sendrgbElement fuel tab index
  = Ok ([Write OCR1A (255 - red e); Write OCR1B (255 - blue e);
         Write OCR0A (255 - green e)] ++ hold_trace (holdTime e)) /\
  forall r,
    written r ([Write OCR1A (255 - red e); Write OCR1B (255 - blue e);
                Write OCR0A (255 - green e)] ++ hold_trace (holdTime e))
    = [level r (inverted e)].
Proof.
  intros Htab Hread Hidx HF HH Hfuel.
  split.
  - rewrite (sendrgbElement_any_duration fuel tab index e); try assumption.
    + unfold element_trace, fade_trace.
      destruct (Z.eqb_spec (fadeTime e) 0); [lia |].
      rewrite to_nat_nonpos by lia. reflexivity.
    + unfold Int16.INT_MAX. lia.
    + split; [lia | assumption].
  - intros r.
    change [Write OCR1A (255 - red e); Write OCR1B (255 - blue e);
            Write OCR0A (255 - green e)] with (leds_trace (inverted e)).
    rewrite written_app, written_leds, written_hold. reflexivity.
Qed.

Lemma negative_fade_sets_leds_once_witness :
  sendrgbElement 0 odd_table 1
  = Ok ([Write OCR1A 255; Write OCR1B 55; Write OCR0A 155] ++ hold_trace (-7)).
Proof.
  exact (proj1 (negative_fade_sets_leds_once 0 odd_table 1
                  (mkElement (-5) (-7) 0 100 200)
                  odd_table_colours eq_refl ltac:(in_ranges)
                  ltac:(cbn; lia) ltac:(in_ranges) ltac:(cbn; lia))).
Defined.

(** X2.  An entry takes as many tick delays as its fade time and its hold
    time say, a duration below zero counting as none; every delay is
    [delay_ten_us(100)]. *)
Theorem entry_ticks_clamp_durations (fuel : nat) tab index e :
  Forall wf_colours tab ->
  pgm_read tab index = Ok e ->
  index <= Int16.INT_MAX ->
  fadeTime e < Int16.INT_MAX -> holdTime e <= Int16.INT_MAX ->
  fits fuel e ->
  exists t,
    sendrgbElement fuel tab index = Ok t /\
    ticks t = Z.max 0 (fadeTime e) + Z.max 0 (holdTime e) /\
    forall us, In (Delay us) t -> us = 100.
Proof.
  intros Htab Hread Hidx HF HH Hfits.
  eexists. split; [apply sendrgbElement_any_duration; eassumption |].
  split.
  - unfold element_trace. rewrite !ticks_app, ticks_leds.
    assert (E1 : ticks (fade_trace (fadeTime e) (previous tab index) (inverted e))
                 = Z.max 0 (fadeTime e)).
    { unfold fade_trace. rewrite ticks_frames. lia. }
    assert (E2 : ticks (hold_trace (holdTime e)) = Z.max 0 (holdTime e)).
    { destruct (Z_lt_le_dec (holdTime e) 0).
      - unfold hold_trace. rewrite to_nat_nonpos by lia. cbn. lia.
      - rewrite ticks_hold by lia. lia. }
    rewrite E1, E2.
    assert (E0 : ticks [] = 0) by reflexivity.
    destruct (fadeTime e =? 0); [rewrite ticks_leds | rewrite E0]; lia.
  - intros us Hin. unfold element_trace in Hin.
    assert (Hleds : forall x, In (Delay us) (leds_trace x) -> us = 100).
    { intros x Hx. cbn in Hx. intuition discriminate. }
    rewrite !in_app_iff in Hin.
    destruct Hin as [Hin | [Hin | [Hin | Hin]]].
    + destruct (fadeTime e =? 0); [eauto | contradiction].
    + unfold fade_trace in Hin. apply in_flat_map in Hin.
      destruct Hin as (k & _ & Hk). cbn in Hk.
      destruct Hk as [Hk | [Hk | [Hk | [Hk | []]]]]; try discriminate.
      injection Hk as <-. reflexivity.
    + eauto.
    + unfold hold_trace in Hin. apply repeat_spec in Hin.
      injection Hin as <-. reflexivity.
Qed.

Lemma entry_ticks_clamp_durations_witness :
  exists t,
    sendrgbElement 0 odd_table 1 = Ok t /\
    ticks t = Z.max 0 (-5) + Z.max 0 (-7) /\
    forall us, In (Delay us) t -> us = 100.
Proof.
  exact (entry_ticks_clamp_durations 0 odd_table 1
           (mkElement (-5) (-7) 0 100 200)
           odd_table_colours eq_refl ltac:(in_ranges)
           ltac:(in_ranges) ltac:(in_ranges) ltac:(in_ranges)).
Defined.

(** ** The shape of a fade *)

Lemma div_succ s a :
  0 < s -> 0 <= a -> (a + 1) / s = a / s \/ (a + 1) / s = a / s + 1.
Proof.
  intros Hs Ha.
  pose proof (Z.div_mod a s ltac:(lia)) as Hdm.
  pose proof (Z.mod_pos_bound a s Hs) as Hmb.
  destruct (Z_lt_le_dec (a mod s + 1) s) as [Hlt | Hge].
  - left. apply (div_same s (a / s) (a mod s)); lia.
  - right. apply div_next; [assumption | nia].
Qed.

Lemma ramp_succ F p t k :
  0 <= F -> 0 <= k ->
  ramp F p t (k + 1) = ramp F p t k \/
  ramp F p t (k + 1) = ramp F p t k + Z.sgn (t - p).
Proof.
  intros HF Hk. destruct (Z.eq_dec (t - p) 0) as [Hd | Hd].
  - left. rewrite !ramp_still by assumption. reflexivity.
  - rewrite !ramp_moving by assumption.
    pose proof (quot_abs_bound F (t - p) HF Hd) as Hq.
    destruct (div_succ (Z.abs (F ÷ (t - p)) + 1) k ltac:(lia) Hk) as [E | E];
      rewrite E; [left; reflexivity | right; ring].
Qed.

Lemma written_fade_nth r F prev target (k : nat) v :
  nth_error (written r (fade_trace F prev target)) k = Some v ->
  (Z.of_nat k < F) /\
  v = ramp F (level r prev) (level r target) (Z.of_nat k + 1).
Proof.
  rewrite written_fade, nth_error_map. intros H.
  destruct (nth_error (zseq 1 (Z.to_nat F)) k) as [x |] eqn:Hx; [| discriminate].
  assert (Hlen : (k < length (zseq 1 (Z.to_nat F)))%nat)
    by (apply nth_error_Some; congruence).
  rewrite zseq_length in Hlen.
  rewrite zseq_nth in Hx by exact Hlen.
  apply (f_equal (fun o => match o with Some y => y | None => 0 end)) in Hx.
  cbn beta iota in Hx. subst x.
  cbn [option_map] in H.
  apply (f_equal (fun o => match o with Some y => y | None => 0 end)) in H.
  cbn beta iota in H. subst v.
  split; [lia |]. f_equal. lia.
Qed.

(** X3.  A fade is smooth: the level a register gets in one iteration of
    the fade loop is the level of the iteration before, or one unit closer
    to the target; the first iteration starts from the previous level. *)
Theorem fade_moves_one_unit_at_most (fuel : nat) tab index e (r : register) :
  playable fuel tab index e ->
  sendrgbElement fuel tab index
  = Ok (element_trace (fadeTime e) (holdTime e) (previous tab index) (inverted e)) /\
  (forall v,
     nth_error (written r (fade_trace (fadeTime e) (previous tab index) (inverted e))) 0
       = Some v ->
     v = level r (previous tab index) \/
     v = level r (previous tab index)
         + Z.sgn (level r (inverted e) - level r (previous tab index))) /\
  (forall (k : nat) v w,
     nth_error (written r (fade_trace (fadeTime e) (previous tab index) (inverted e))) k
       = Some v ->
     nth_error (written r (fade_trace (fadeTime e) (previous tab index) (inverted e))) (S k)
       = Some w ->
     w = v \/
     w = v + Z.sgn (level r (inverted e) - level r (previous tab index))).
Proof.
  intros Hplay.
  assert (HF : 0 <= fadeTime e)
    by (destruct Hplay as (_ & _ & _ & (H & _) & _); lia).
  split; [apply playable_closed; exact Hplay |]. split.
  - intros v Hv. apply written_fade_nth in Hv. destruct Hv as [_ ->].
    pose proof (ramp_succ (fadeTime e) (level r (previous tab index))
                  (level r (inverted e)) 0 HF ltac:(lia)) as H.
    rewrite ramp_start in H. exact H.
  - intros k v w Hv Hw.
    apply written_fade_nth in Hv. destruct Hv as [_ ->].
    apply written_fade_nth in Hw. destruct Hw as [_ ->].
    replace (Z.of_nat (S k) + 1) with (Z.of_nat k + 1 + 1) by lia.
    apply ramp_succ; lia.
Qed.

Lemma fade_moves_one_unit_at_most_witness :
  playable 500 lightTab 1 (mkElement 500 500 255 0 0) /\
  forall (k : nat) v w,
    nth_error (written OCR1A (fade_trace 500 (previous lightTab 1)
                                (inverted (mkElement 500 500 255 0 0)))) k
      = Some v ->
    nth_error (written OCR1A (fade_trace 500 (previous lightTab 1)
                                (inverted (mkElement 500 500 255 0 0)))) (S k)
      = Some w ->
    w = v \/ w = v + Z.sgn (0 - 255).
Proof.
  assert (Hplay : playable 500 lightTab 1 (mkElement 500 500 255 0 0))
    by play_lightTab.
  split; [exact Hplay |].
  exact (proj2 (proj2 (fade_moves_one_unit_at_most 500 lightTab 1
                         (mkElement 500 500 255 0 0) OCR1A Hplay))).
Defined.

(** X4.  When the fade time is shorter than the distance to cover, the
    step interval is 1: the colour moves one unit in every iteration, and
    the fade loop ends [|delta| - fadeTime] units away from the target (the
    write after the loop makes up for the rest in one jump). *)
Theorem short_fade_moves_every_tick (fuel : nat) tab index e (r : register) :
  playable fuel tab index e ->
  0 < fadeTime e < Z.abs (level r (inverted e) - level r (previous tab index)) ->
  colourTime (fadeTime e)
    (colourDelta (level r (inverted e)) (level r (previous tab index))) = 1 /\
  sendrgbElement fuel tab index
  = Ok (element_trace (fadeTime e) (holdTime e) (previous tab index) (inverted e)) /\
  written r (fade_trace (fadeTime e) (previous tab index) (inverted e))
  = map (fun tick =>
           level r (previous tab index)
           + Z.sgn (level r (inverted e) - level r (previous tab index)) * tick)
        (zseq 1 (Z.to_nat (fadeTime e))) /\
  Z.abs (level r (inverted e)
         - (level r (previous tab index)
            + Z.sgn (level r (inverted e) - level r (previous tab index))
              * fadeTime e))
  = Z.abs (level r (inverted e) - level r (previous tab index)) - fadeTime e.
Proof.
  intros Hplay HF.
  destruct (playable_levels _ _ _ _ Hplay) as [Hprev Htarget].
  pose proof (level_range r _ Hprev) as Hp.
  pose proof (level_range r _ Htarget) as Ht.
  assert (Hwf : 0 <= fadeTime e < Int16.INT_MAX)
    by (destruct Hplay as (_ & _ & _ & (H & _) & _); exact H).
  assert (Hd : level r (inverted e) - level r (previous tab index) <> 0) by lia.
  assert (Hq : Z.abs (fadeTime e ÷ (level r (inverted e) - level r (previous tab index))) = 0).
  { rewrite quot_abs by lia. apply Z.div_small. lia. }
  split; [| split; [apply playable_closed; exact Hplay | split]].
  - rewrite (colourDelta_closed _ _ Ht Hp), colourTime_closed by assumption.
    rewrite Hq. reflexivity.
  - rewrite written_fade. apply map_ext. intros k.
    rewrite ramp_moving by exact Hd. rewrite Hq. cbn [Z.add].
    rewrite Z.div_1_r. reflexivity.
  - lia.
Qed.

Lemma short_fade_moves_every_tick_witness :
  playable 3 odd_table 0 (mkElement 3 2 0 255 255) /\
  colourTime 3 (colourDelta 255 0) = 1 /\
  written OCR1A (fade_trace 3 (previous odd_table 0)
                   (inverted (mkElement 3 2 0 255 255)))
  = map (fun tick => 0 + 1 * tick) (zseq 1 (Z.to_nat 3)).
Proof.
  assert (Hplay : playable 3 odd_table 0 (mkElement 3 2 0 255 255)).
  { split; [exact odd_table_colours |].
    split; [reflexivity |]. split; [in_ranges |]. split; in_ranges. }
  split; [exact Hplay |].
  destruct (short_fade_moves_every_tick 3 odd_table 0 (mkElement 3 2 0 255 255)
              OCR1A Hplay ltac:(cbn; lia)) as (Htime & _ & Hwritten & _).
  split; [exact Htime | exact Hwritten].
Defined.

Lemma written_element r F H prev target :
  written r (element_trace F H prev target)
  = (if F =? 0 then [level r target] else [])
      ++ map (ramp F (level r prev) (level r target)) (zseq 1 (Z.to_nat F))
      ++ [level r target].
Proof.
  unfold element_trace.
  rewrite !written_app, written_fade, written_leds, written_hold, app_nil_r.
  destruct (F =? 0); [rewrite written_leds |]; reflexivity.
Qed.

(** X5.  Playing an entry writes every compare register once per
    iteration of the fade loop and once after it (and once more before it
    when the fade time is 0), and every value written is a byte. *)
Theorem entry_writes_bytes (fuel : nat) tab index e (r : register) :
  playable fuel tab index e ->
  exists t,
    sendrgbElement fuel tab index = Ok t /\
    length (written r t)
    = (Z.to_nat (fadeTime e) + (if (fadeTime e =? 0)%Z then 2 else 1))%nat /\
    Forall UChar.in_range (written r t).
Proof.
  intros Hplay.
  destruct (playable_levels _ _ _ _ Hplay) as [Hprev Htarget].
  pose proof (level_range r _ Hprev) as Hp.
  pose proof (level_range r _ Htarget) as Ht.
  assert (HF : 0 <= fadeTime e)
    by (destruct Hplay as (_ & _ & _ & (H & _) & _); lia).
  eexists. split; [apply playable_closed; exact Hplay |].
  rewrite written_element. split.
  - rewrite !length_app, length_map, zseq_length.
    destruct (fadeTime e =? 0); cbn [length]; lia.
  - apply Forall_app. split.
    + destruct (fadeTime e =? 0); constructor; [exact Ht | constructor].
    + apply Forall_app. split; [| constructor; [exact Ht | constructor]].
      apply Forall_forall. intros v Hv.
      apply in_map_iff in Hv. destruct Hv as (k & <- & Hk).
      apply zseq_In in Hk.
      pose proof (ramp_between (fadeTime e) (level r (previous tab index))
                    (level r (inverted e)) k ltac:(lia)).
      unfold UChar.in_range in *. lia.
Qed.

Lemma entry_writes_bytes_witness :
  playable 500 lightTab 1 (mkElement 500 500 255 0 0) /\
  exists t,
    sendrgbElement 500 lightTab 1 = Ok t /\
    length (written OCR1A t) = (Z.to_nat 500 + 1)%nat /\
    Forall UChar.in_range (written OCR1A t).
Proof.
  assert (Hplay : playable 500 lightTab 1 (mkElement 500 500 255 0 0))
    by play_lightTab.
  split; [exact Hplay |].
  exact (entry_writes_bytes 500 lightTab 1 (mkElement 500 500 255 0 0) OCR1A Hplay).
Defined.

Lemma ramp_mirror F a b k :
  ramp F b a k = a + b - ramp F a b k.
Proof.
  destruct (Z.eq_dec (b - a) 0) as [Hd | Hd].
  - rewrite !ramp_still by lia. lia.
  - rewrite !ramp_moving by lia.
    replace (a - b) with (- (b - a)) by lia.
    rewrite Z.quot_opp_r by exact Hd.
    rewrite Z.abs_opp, Z.sgn_opp. ring.
Qed.

(** X6.  Fading from one colour to another and fading back are mirror
    images: the step interval depends on the distance only, so in every
    iteration both fades are equally far from where they started. *)
Theorem fade_back_is_mirror (fuel : nat) F (a b : rgb) (r : register) :
  0 <= F < Int16.INT_MAX -> F <= Z.of_nat fuel -> wf_rgb a -> wf_rgb b ->
  colourTime F (colourDelta (level r a) (level r b))
  = colourTime F (colourDelta (level r b) (level r a)) /\
  fade_loop fuel 1 F
    (colourInit F (level_r b) (level_r a))
    (colourInit F (level_g b) (level_g a))
    (colourInit F (level_b b) (level_b a))
  = Ok (fade_trace F a b) /\
  fade_loop fuel 1 F
    (colourInit F (level_r a) (level_r b))
    (colourInit F (level_g a) (level_g b))
    (colourInit F (level_b a) (level_b b))
  = Ok (fade_trace F b a) /\
  written r (fade_trace F b a)
  = map (fun v => level r a + level r b - v) (written r (fade_trace F a b)).
Proof.
  intros HF Hfuel Ha Hb.
  pose proof (level_range r _ Ha) as Hra.
  pose proof (level_range r _ Hb) as Hrb.
  split; [| split; [| split]].
  - rewrite !colourDelta_closed by assumption.
    destruct (Z.eq_dec (level r a - level r b) 0) as [Hd | Hd].
    + replace (level r b - level r a) with 0 by lia. rewrite Hd. reflexivity.
    + rewrite !colourTime_closed by (assumption || lia).
      replace (level r b - level r a) with (- (level r a - level r b)) by lia.
      rewrite Z.quot_opp_r by exact Hd. rewrite Z.abs_opp. reflexivity.
  - apply fade_loop_any; try assumption. lia.
  - apply fade_loop_any; try assumption. lia.
  - rewrite !written_fade, map_map. apply map_ext. intros k.
    apply ramp_mirror.
Qed.

Lemma fade_back_is_mirror_witness :
  0 <= 500 < Int16.INT_MAX /\
  written OCR1A (fade_trace 500 (mkRgb 255 0 0) (mkRgb 0 0 0))
  = map (fun v => 0 + 255 - v)
        (written OCR1A (fade_trace 500 (mkRgb 0 0 0) (mkRgb 255 0 0))).
Proof.
  assert (HF : 0 <= 500 < Int16.INT_MAX) by (unfold Int16.INT_MAX; lia).
  split; [exact HF |].
  exact (proj2 (proj2 (proj2
    (fade_back_is_mirror 500 500 (mkRgb 0 0 0) (mkRgb 255 0 0) OCR1A
       HF ltac:(lia) ltac:(in_ranges) ltac:(in_ranges))))).
Defined.

(** ** Passes over any table *)

Lemma pgm_read_past tab index :
  Z.of_nat (length tab) <= index -> pgm_read tab index = OutOfBounds.
Proof.
  intros H. unfold pgm_read.
  destruct (Z.ltb_spec index 0); [reflexivity |].
  destruct (nth_error tab (Z.to_nat index)) eqn:E; [| reflexivity].
  assert (Z.to_nat index < length tab)%nat by (apply nth_error_Some; congruence).
  lia.
Qed.

Lemma wf_element_colours e : wf_element e -> wf_colours e.
Proof. intros (_ & _ & H). exact H. Qed.

Lemma do_while_returned (fuel : nat) tab (n : nat) : forall index,
  do_while fuel n tab index = returned (do_while_emits fuel n tab index).
Proof.
  induction n as [| n IH]; intros index; [reflexivity |].
  cbn [do_while do_while_emits].
  destruct (sendrgbElement fuel tab index) as [t | |]; cbn [bind];
    [| reflexivity | reflexivity].
  destruct (pgm_read tab (Int16.add index 1)) as [e | |]; cbn [bind];
    [| reflexivity | reflexivity].
  destruct (is_last e); cbn [negb]; [reflexivity |].
  rewrite IH. unfold returned. cbn [fst snd].
  destruct (snd (do_while_emits fuel n tab (Int16.add index 1)));
    reflexivity.
Qed.

Lemma sendrgbElement_in_table (fuel : nat) tab i :
  Forall wf_element tab ->
  Forall (fits fuel) tab ->
  Z.of_nat (length tab) <= Int16.INT_MAX ->
  0 <= i < Z.of_nat (length tab) ->
  sendrgbElement fuel tab i = Ok (entry_trace tab i).
Proof.
  intros Hwf Hfits Hmax Hi.
  assert (Hcol : Forall wf_colours tab)
    by (eapply Forall_impl; [| exact Hwf]; apply wf_element_colours).
  destruct (nth_error tab (Z.to_nat i)) as [e |] eqn:He;
    [| apply nth_error_None in He; lia].
  assert (Hread : pgm_read tab i = Ok e)
    by (apply pgm_read_nth; split; [lia | exact He]).
  assert (Hin : In e tab) by (eapply nth_error_In; exact He).
  rewrite Forall_forall in Hwf, Hfits.
  destruct (Hfits e Hin) as [HfF HfH].
  unfold entry_trace. rewrite Hread.
  apply sendrgbElement_closed; auto. lia.
Qed.

Lemma do_while_emits_runs_off (fuel : nat) tab :
  Forall wf_element tab ->
  Forall (fits fuel) tab ->
  Forall (fun e => is_last e = false) (tl tab) ->
  Z.of_nat (length tab) <= Int16.INT_MAX ->
  forall (m n : nat) (k : Z),
    (S m <= n)%nat -> 0 <= k -> k + Z.of_nat (S m) = Z.of_nat (length tab) ->
    do_while_emits fuel n tab k
    = (flat_map (entry_trace tab) (zseq k (S m)), OutOfBounds).
Proof.
  intros Hwf Hfits Hun Hmax.
  pose proof Hmax as Hmax'. unfold Int16.INT_MAX in Hmax'.
  induction m as [| m IH]; intros n k Hn Hk Hend;
    (destruct n as [| n]; [lia |]);
    cbn [do_while_emits];
    rewrite (sendrgbElement_in_table fuel tab k Hwf Hfits Hmax) by lia;
    unfold Int16.add;
    rewrite int16_wrap_id
      by (unfold Int16.in_range, Int16.INT_MIN, Int16.INT_MAX; lia).
  - rewrite pgm_read_past by lia.
    cbn [zseq flat_map]. rewrite app_nil_r. reflexivity.
  - destruct (nth_error tab (Z.to_nat (k + 1))) as [e' |] eqn:He';
      [| apply nth_error_None in He'; lia].
    assert (Hread' : pgm_read tab (k + 1) = Ok e')
      by (apply pgm_read_nth; split; [lia | exact He']).
    rewrite Hread'.
    assert (Hnl : is_last e' = false).
    { destruct tab as [| e0 l]; [simpl in Hend; lia |].
      replace (Z.to_nat (k + 1)) with (S (Z.to_nat k)) in He' by lia.
      simpl in He', Hun. rewrite Forall_forall in Hun. apply Hun.
      eapply nth_error_In; exact He'. }
    rewrite Hnl. cbn [negb].
    rewrite (IH n (k + 1)) by lia. cbn [fst snd].
    reflexivity.
Qed.

(** X7.  The do-while has no bound of its own: on a table without an end
    marker after entry 0 it plays every entry of the table, in order, and
    then reads past the end of the array; [do_while], which returns only
    for a run that ends, reports the read, and so does [main]. *)
Theorem pass_without_marker_leaves_table (fuel : nat) tab :
  tab <> [] ->
  Forall wf_element tab ->
  Forall (fits fuel) tab ->
  Forall (fun e => is_last e = false) (tl tab) ->
  Z.of_nat (length tab) <= Int16.INT_MAX ->
  (length tab <= fuel)%nat ->
  do_while_emits fuel fuel tab 0
  = (pass_trace tab (length tab), OutOfBounds) /\
  (forall i, 0 <= i < Z.of_nat (length tab) ->
     sendrgbElement fuel tab i = Ok (entry_trace tab i)) /\
  pgm_read tab (Z.of_nat (length tab)) = OutOfBounds /\
  (forall n index,
     do_while fuel n tab index = returned (do_while_emits fuel n tab index)) /\
  do_while fuel fuel tab 0 = OutOfBounds /\
  main fuel tab = OutOfBounds.
Proof.
  intros Hne Hwf Hfits Hun Hmax Hfuel.
  assert (Hrun : do_while_emits fuel fuel tab 0
                 = (pass_trace tab (length tab), OutOfBounds)).
  { unfold pass_trace. destruct tab as [| e l]; [contradiction |].
    apply (do_while_emits_runs_off fuel (e :: l) Hwf Hfits Hun Hmax (length l));
      cbn [length] in *; lia. }
  assert (Hpass : do_while fuel fuel tab 0 = OutOfBounds)
    by (rewrite do_while_returned, Hrun; reflexivity).
  split; [exact Hrun |].
  split; [intros i Hi; apply sendrgbElement_in_table; assumption |].
  split; [apply pgm_read_past; lia |].
  split; [intros n index; apply do_while_returned |].
  split; [exact Hpass |].
  unfold main. change 360%nat with (S 359). cbn [count_loop].
  rewrite Hpass. reflexivity.
Qed.

Ltac check_table :=
  match goal with
  | |- Forall wf_element _ =>
      apply (forallb_sound wf_elementb); [apply wf_elementb_sound | reflexivity]
  | |- Forall wf_colours _ =>
      apply (forallb_sound wf_coloursb); [apply wf_coloursb_sound | reflexivity]
  | |- Forall (fits _) _ =>
      apply (forallb_sound (shorterb 3)); [| reflexivity];
      intros ?; apply shorterb_sound; lia
  | |- Forall (fun e => is_last e = false) _ =>
      apply (forallb_sound (fun e => negb (is_last e))); [| reflexivity];
      intros ? ?; apply negb_true_iff; assumption
  end.

Lemma pass_without_marker_leaves_table_witness :
  do_while_emits 3 3 open_table 0
  = (entry_trace open_table 0 ++ entry_trace open_table 1 ++ [], OutOfBounds) /\
  do_while 3 3 open_table 0 = OutOfBounds /\
  main 3 open_table = OutOfBounds.
Proof.
  destruct (pass_without_marker_leaves_table 3 open_table
              ltac:(discriminate) ltac:(check_table) ltac:(check_table)
              ltac:(check_table)
              ltac:(cbn [length open_table]; unfold Int16.INT_MAX; lia)
              ltac:(cbn [length open_table]; lia))
    as (Hrun & _ & _ & _ & Hpass & Hmain).
  split; [exact Hrun |]. split; [exact Hpass | exact Hmain].
Defined.

(** X8.  On any table, a pass plays the entries before the first end
    marker that follows entry 0, in order, and stops with [index] on that
    marker; what comes after the marker is never played.  The pass takes
    the sum of the durations of the entries played. *)
Theorem pass_plays_up_to_first_marker (fuel : nat)
    (tab body rest : list rgbElement) (last : rgbElement) :
  tab = body ++ last :: rest ->
  is_last last = true ->
  body <> [] ->
  Forall wf_element body ->
  Forall wf_colours tab ->
  Forall (fits fuel) body ->
  Forall (fun e => is_last e = false) (tl body) ->
  Z.of_nat (length body) <= Int16.INT_MAX ->
  (length body <= fuel)%nat ->
  do_while fuel fuel tab 0
  = Ok (Z.of_nat (length body), pass_trace tab (length body)) /\
  (forall i, 0 <= i < Z.of_nat (length body) ->
     sendrgbElement fuel tab i = Ok (entry_trace tab i)) /\
  ticks (pass_trace tab (length body)) = total_duration body.
Proof.
  intros Htab Hlast Hne Hwf Hcol Hfits Hun Hmax Hfuel.
  split; [| split].
  - apply (pass_closed fuel tab body rest last); assumption.
  - intros i Hi.
    apply (sendrgbElement_body fuel tab body rest last); assumption.
  - apply (pass_ticks tab body last rest); assumption.
Qed.

Lemma pass_plays_up_to_first_marker_witness :
  do_while 3 3 long_table 0 = Ok (2, pass_trace long_table 2) /\
  ticks (pass_trace long_table 2) = 7.
Proof.
  destruct (pass_plays_up_to_first_marker 3 long_table
              [mkElement 3 2 0 255 255; mkElement 2 0 255 0 0]
              [mkElement 1 1 9 9 9; mkElement 0 0 0 0 0]
              (mkElement 0 0 0 0 0)
              eq_refl eq_refl ltac:(discriminate)
              ltac:(check_table) ltac:(check_table) ltac:(check_table)
              ltac:(check_table)
              ltac:(cbn; unfold Int16.INT_MAX; lia) ltac:(cbn; lia))
    as (Hpass & _ & Hticks).
  split; [exact Hpass | exact Hticks].
Defined.

(** X9.  The test of the do-while comes after the body and looks at the
    next entry only: an end marker at index 0 is played like any entry
    (both loops empty, the levels written twice) and does not end the
    pass. *)
Theorem marker_at_start_is_played (fuel : nat)
    (tab body rest : list rgbElement) (first last : rgbElement) :
  tab = first :: body ++ last :: rest ->
  is_last first = true ->
  is_last last = true ->
  Forall wf_element body ->
  Forall wf_colours tab ->
  Forall (fits fuel) body ->
  Forall (fun e => is_last e = false) body ->
  Z.of_nat (S (length body)) <= Int16.INT_MAX ->
  (S (length body) <= fuel)%nat ->
  do_while fuel fuel tab 0
  = Ok (Z.of_nat (S (length body)),
        (leds_trace (inverted first) ++ leds_trace (inverted first))
          ++ flat_map (entry_trace tab) (zseq 1 (length body))).
Proof.
  intros Htab Hfirst Hlast Hwf Hcol Hfits Hun Hmax Hfuel.
  unfold is_last in Hfirst. apply andb_prop in Hfirst.
  destruct Hfirst as [HF HH]. apply Z.eqb_eq in HF, HH.
  assert (Hcf : wf_colours first).
  { rewrite Forall_forall in Hcol. apply Hcol. rewrite Htab. left. reflexivity. }
  assert (Hwf1 : wf_element first)
    by (unfold wf_element, Int16.INT_MAX; rewrite HF, HH;
        split; [lia | split; [lia | exact Hcf]]).
  assert (Hfit1 : fits fuel first) by (unfold fits; rewrite HF, HH; lia).
  rewrite (pass_closed fuel tab (first :: body) rest last); try assumption.
  - unfold pass_trace. cbn [length zseq flat_map].
    assert (Hread : pgm_read tab 0 = Ok first) by (rewrite Htab; reflexivity).
    unfold entry_trace at 1. rewrite Hread.
    unfold element_trace. rewrite HF, HH.
    cbn [Z.eqb]. rewrite fade_trace_none.
    unfold hold_trace. cbn [Z.to_nat repeat app].
    rewrite app_nil_r. reflexivity.
  - constructor; assumption.
  - constructor; assumption.
  - discriminate.
Qed.

Lemma marker_at_start_is_played_witness :
  do_while 3 3 marked_table 0
  = Ok (Z.of_nat 2,
        (leds_trace (mkRgb 245 235 225) ++ leds_trace (mkRgb 245 235 225))
          ++ flat_map (entry_trace marked_table) (zseq 1 1)).
Proof.
  exact (marker_at_start_is_played 3 marked_table
           [mkElement 3 2 0 255 255] [] (mkElement 0 0 10 20 30)
           (mkElement 0 0 0 0 0)
           eq_refl eq_refl eq_refl
           ltac:(check_table) ltac:(check_table) ltac:(check_table)
           ltac:(check_table)
           ltac:(cbn; unfold Int16.INT_MAX; lia) ltac:(cbn; lia)).
Defined.

(** X10.  [main] carries nothing from one pass to the next: on any table
    with an end marker the 360 passes emit the same trace, between the
    set-up and the shut-down. *)
Theorem main_repeats_the_pass (fuel : nat)
    (tab body rest : list rgbElement) (last : rgbElement) :
  tab = body ++ last :: rest ->
  is_last last = true ->
  body <> [] ->
  Forall wf_element body ->
  Forall wf_colours tab ->
  Forall (fits fuel) body ->
  Forall (fun e => is_last e = false) (tl body) ->
  Z.of_nat (length body) <= Int16.INT_MAX ->
  (length body <= fuel)%nat ->
  main fuel tab
  = Ok ([Initialize]
          ++ concat (repeat (pass_trace tab (length body)) 360)
          ++ [Teardown]) /\
  ticks (concat (repeat (pass_trace tab (length body)) 360))
  = 360 * total_duration body.
Proof.
  intros Htab Hlast Hne Hwf Hcol Hfits Hun Hmax Hfuel.
  split.
  - unfold main.
    rewrite (count_loop_closed fuel tab body rest last); try assumption.
    cbn [bind snd]. reflexivity.
  - assert (E : forall n p, ticks (concat (repeat p n)) = Z.of_nat n * ticks p).
    { induction n as [| n IH]; intros p; [reflexivity |].
      cbn [repeat concat]. rewrite ticks_app, IH. lia. }
    rewrite E, (pass_ticks tab body last rest) by assumption.
    reflexivity.
Qed.

Lemma main_repeats_the_pass_witness :
  main 3 long_table
  = Ok ([Initialize] ++ concat (repeat (pass_trace long_table 2) 360)
          ++ [Teardown]).
Proof.
  exact (proj1 (main_repeats_the_pass 3 long_table
                  [mkElement 3 2 0 255 255; mkElement 2 0 255 0 0]
                  [mkElement 1 1 9 9 9; mkElement 0 0 0 0 0]
                  (mkElement 0 0 0 0 0)
                  eq_refl eq_refl ltac:(discriminate)
                  ltac:(check_table) ltac:(check_table) ltac:(check_table)
                  ltac:(check_table)
                  ltac:(cbn; unfold Int16.INT_MAX; lia) ltac:(cbn; lia))).
Defined.

(** ** The busy-wait delays *)

Lemma ulong_wrap_id z : ULong.in_range z -> ULong.wrap z = z.
Proof. unfold ULong.in_range, ULong.wrap. intros H. apply Z.mod_small. lia. Qed.

Lemma pinb_written_add a b s :
  pinb_written a (pinb_written b s) = pinb_written (b + a) s.
Proof. unfold pinb_written. cbn. f_equal. lia. Qed.

Lemma pinb_written_0 s : pinb_written 0 s = s.
Proof. destruct s. unfold pinb_written. cbn. f_equal. lia. Qed.

Lemma spin_loop_closed (m : nat) : forall (fuel : nat) (count DelayCount : Z) s,
  (m <= fuel)%nat -> 0 <= count -> count + Z.of_nat m = DelayCount + 1 ->
  DelayCount + 1 < 4294967296 ->
  Mcu.spin_loop fuel count DelayCount s = Ok (pinb_written (Z.of_nat m) s).
Proof.
  induction m as [| m IH]; intros fuel count DC s Hfuel Hc Hend Hmax.
  - assert (E : (count <=? DC) = false) by (apply Z.leb_gt; lia).
    destruct fuel; simpl; rewrite E, pinb_written_0; reflexivity.
  - destruct fuel as [| fuel]; [lia |].
    assert (E : (count <=? DC) = true) by (apply Z.leb_le; lia).
    simpl Mcu.spin_loop. rewrite E.
    unfold ULong.add. rewrite ulong_wrap_id by (unfold ULong.in_range; lia).
    rewrite (IH fuel (count + 1)) by lia.
    change (Mcu.toggle_PINB s) with (pinb_written 1 s).
    rewrite pinb_written_add. do 2 f_equal. lia.
Qed.

Lemma delay_loop_closed (fuel : nat) (DelayCount : Z) (m : nat) :
  0 <= DelayCount -> DelayCount + 1 <= Z.of_nat fuel ->
  DelayCount + 1 < 4294967296 ->
  forall (n : nat) (us : Z) s,
    (m <= n)%nat -> us = Z.of_nat m -> ULong.in_range us ->
    Mcu.delay_loop fuel n DelayCount us s
    = Ok (pinb_written (us * (DelayCount + 1)) s).
Proof.
  intros HDC Hfuel Hmax.
  induction m as [| m IH]; intros n us s Hn Hus Hr.
  - subst us. destruct n; simpl; rewrite pinb_written_0; reflexivity.
  - destruct n as [| n]; [lia |].
    assert (E : (us =? 0) = false) by (apply Z.eqb_neq; lia).
    simpl Mcu.delay_loop. rewrite E. cbn [negb].
    rewrite (spin_loop_closed (Z.to_nat (DelayCount + 1))) by lia.
    cbn [bind]. unfold ULong.in_range in Hr.
    unfold ULong.sub. rewrite ulong_wrap_id by (unfold ULong.in_range; lia).
    rewrite (IH n (us - 1)) by (unfold ULong.in_range; lia).
    rewrite pinb_written_add. do 2 f_equal. rewrite Z2Nat.id by lia. ring.
Qed.

Lemma delay_ten_us_closed (fuel : nat) (us : Z) s :
  ULong.in_range us -> us <= Z.of_nat fuel -> 7 <= Z.of_nat fuel ->
  Mcu.delay_ten_us fuel us s = Ok (pinb_written (7 * us) s).
Proof.
  intros Hr Hfuel H7. unfold Mcu.delay_ten_us.
  rewrite (delay_loop_closed fuel 6 (Z.to_nat us)); try lia.
  - do 2 f_equal. lia.
  - unfold ULong.in_range in Hr. lia.
  - exact Hr.
Qed.

(** X11.  [delay_ten_us] returns for every argument an [unsigned long] can
    hold; it has then executed the write to PINB seven times per unit
    asked for and changed nothing else. *)
Theorem delay_ten_us_work (fuel : nat) (us : Z) s :
  ULong.in_range us -> us <= Z.of_nat fuel -> 7 <= Z.of_nat fuel ->
  Mcu.delay_ten_us fuel us s = Ok (pinb_written (7 * us) s).
Proof.
  intros Hr Hfuel H7. unfold Mcu.delay_ten_us.
  assert (Hus : 0 <= us < 4294967296) by exact Hr.
  rewrite (delay_loop_closed fuel 6 (Z.to_nat us)); try lia.
  - replace (us * (6 + 1)) with (7 * us) by ring. reflexivity.
  - exact Hr.
Qed.

Lemma delay_ten_us_work_witness :
  ULong.in_range 100 /\
  forall s, Mcu.delay_ten_us 100 100 s = Ok (pinb_written (7 * 100) s).
Proof.
  assert (Hr : ULong.in_range 100) by (unfold ULong.in_range; lia).
  split; [exact Hr |].
  intros s. exact (delay_ten_us_work 100 100 s Hr ltac:(lia) ltac:(lia)).
Defined.

(** X12.  [delay_x_us] executes the write to PINB once per unit, so
    [delay_ten_us(us)] does the work of [delay_x_us(7 * us)]. *)
Theorem delay_x_us_work (fuel : nat) (x : Z) s :
  ULong.in_range x -> x <= Z.of_nat fuel -> 1 <= Z.of_nat fuel ->
  Mcu.delay_x_us fuel x s = Ok (pinb_written x s) /\
  (forall us, 7 * us = x -> 7 <= Z.of_nat fuel ->
     Mcu.delay_ten_us fuel us s = Mcu.delay_x_us fuel x s).
Proof.
  intros Hr Hfuel H1.
  assert (Hx : Mcu.delay_x_us fuel x s = Ok (pinb_written x s)).
  { unfold Mcu.delay_x_us.
    rewrite (delay_loop_closed fuel 0 (Z.to_nat x)); try lia.
    - do 2 f_equal. lia.
    - unfold ULong.in_range in Hr. lia.
    - exact Hr. }
  split; [exact Hx |].
  intros us Hus H7. rewrite Hx, <- Hus.
  unfold ULong.in_range in Hr.
  apply delay_ten_us_closed; [unfold ULong.in_range |..]; lia.
Qed.

Lemma delay_x_us_work_witness :
  ULong.in_range 255 /\
  forall s, Mcu.delay_x_us 255 255 s = Ok (pinb_written 255 s).
Proof.
  assert (Hr : ULong.in_range 255) by (unfold ULong.in_range; lia).
  split; [exact Hr |].
  intros s. exact (proj1 (delay_x_us_work 255 255 s Hr ltac:(lia) ltac:(lia))).
Defined.

(** ** Set-up and shut-down *)

Lemma uchar_wrap_land z : UChar.wrap z = Z.land z 255.
Proof.
  unfold UChar.wrap. change 255 with (Z.ones 8).
  rewrite Z.land_ones by lia. reflexivity.
Qed.

Lemma byte_land x : UChar.in_range x -> Z.land x 255 = x.
Proof.
  intros H. rewrite <- uchar_wrap_land. apply uchar_wrap_id. exact H.
Qed.

Lemma wrap_land_mask x c :
  Z.land c 255 = c -> UChar.wrap (Z.land x c) = Z.land x c.
Proof.
  intros Hc. rewrite uchar_wrap_land, <- Z.land_assoc, Hc. reflexivity.
Qed.

Lemma wrap_lor_mask x m :
  UChar.in_range x -> Z.land m 255 = m -> UChar.wrap (Z.lor x m) = Z.lor x m.
Proof.
  intros Hx Hm.
  rewrite uchar_wrap_land, Z.land_lor_distr_l, Hm, byte_land by exact Hx.
  reflexivity.
Qed.

Lemma lor_in_range x m :
  UChar.in_range x -> Z.land m 255 = m -> UChar.in_range (Z.lor x m).
Proof.
  intros Hx Hm. rewrite <- (wrap_lor_mask x m Hx Hm). apply uchar_wrap_range.
Qed.

Lemma teardown_closed (fuel : nat) s :
  Mcu.bytes s ->
  10000 <= Z.of_nat fuel ->
  exists s',
    Mcu.teardown fuel s = Ok s' /\
    Mcu.reg s' Mcu.TCCR0B = Z.land (Mcu.reg s Mcu.TCCR0B) 248 /\
    Mcu.reg s' Mcu.TCCR0A = Z.land (Mcu.reg s Mcu.TCCR0A) 63 /\
    Mcu.reg s' Mcu.TCCR1 = Z.land (Mcu.reg s Mcu.TCCR1) 192 /\
    Mcu.reg s' Mcu.GTCCR = Z.land (Mcu.reg s Mcu.GTCCR) 207 /\
    Mcu.reg s' Mcu.DDRB = 0 /\
    Mcu.reg s' Mcu.PORTB = 255 /\
    Mcu.reg s' Mcu.MCUCR = Z.lor (Mcu.reg s Mcu.MCUCR) 48 /\
    Z.testbit (Mcu.reg s' Mcu.MCUCR) 3 = Z.testbit (Mcu.reg s Mcu.MCUCR) 3 /\
    (forall r, Mcu.reg s' (Mcu.OCR r) = Mcu.reg s (Mcu.OCR r)) /\
    Mcu.interrupts s' = false /\
    Mcu.sleeping s' = true /\
    Mcu.pinb_writes s' = Mcu.pinb_writes s + 70000.
Proof.
  intros Hbytes Hfuel.
  unfold Mcu.teardown.
  rewrite delay_ten_us_closed by (unfold ULong.in_range; lia).
  cbn [bind]. eexists. split; [reflexivity |].
  cbn [Mcu.reg Mcu.store Mcu.sleep_cpu Mcu.cli pinb_written Mcu.ioreg_eqb
         Mcu.interrupts Mcu.sleeping Mcu.pinb_writes register_eqb].
  split; [apply wrap_land_mask; reflexivity |].
  split; [apply wrap_land_mask; reflexivity |].
  split.
  { rewrite (wrap_land_mask _ 240) by reflexivity.
    rewrite (wrap_land_mask _ 207) by reflexivity.
    rewrite <- Z.land_assoc. reflexivity. }
  split; [apply wrap_land_mask; reflexivity |].
  split; [reflexivity |]. split; [reflexivity |].
  assert (Hm : UChar.wrap (Z.lor (UChar.wrap (Z.lor (Mcu.reg s Mcu.MCUCR) 32)) 16)
               = Z.lor (Mcu.reg s Mcu.MCUCR) 48).
  { rewrite (wrap_lor_mask _ 32 (Hbytes Mcu.MCUCR)) by reflexivity.
    rewrite (wrap_lor_mask _ 16
               (lor_in_range _ 32 (Hbytes Mcu.MCUCR) eq_refl) eq_refl).
    rewrite <- Z.lor_assoc. reflexivity. }
  split; [exact Hm |].
  split.
  { rewrite Hm, Z.lor_spec. change (Z.testbit 48 3) with false.
    apply orb_false_r. }
  split; [intros r; destruct r; reflexivity |].
  split; [reflexivity |]. split; reflexivity.
Qed.

(** X13.  Whatever the registers hold, [teardown] leaves both timers
    without a clock (CS02:0 and CS13:0 cleared) and the three outputs
    disconnected (COM0A1:0, COM1A1:0 and COM1B1:0 cleared), keeping the
    other bits of these registers; all pins are inputs with pull-ups; SE
    and SM1 are set in MCUCR while SM0 stays as it was; the compare
    registers are not touched; interrupts are off, the CPU is put to sleep,
    after a delay of 10000 units. *)
Theorem teardown_stops_everything (fuel : nat) s :
  Mcu.bytes s ->
  10000 <= Z.of_nat fuel ->
  exists s',
    Mcu.teardown fuel s = Ok s' /\
    Mcu.reg s' Mcu.TCCR0B = Z.land (Mcu.reg s Mcu.TCCR0B) 248 /\
    Mcu.reg s' Mcu.TCCR0A = Z.land (Mcu.reg s Mcu.TCCR0A) 63 /\
    Mcu.reg s' Mcu.TCCR1 = Z.land (Mcu.reg s Mcu.TCCR1) 192 /\
    Mcu.reg s' Mcu.GTCCR = Z.land (Mcu.reg s Mcu.GTCCR) 207 /\
    Mcu.reg s' Mcu.DDRB = 0 /\
    Mcu.reg s' Mcu.PORTB = 255 /\
    Mcu.reg s' Mcu.MCUCR = Z.lor (Mcu.reg s Mcu.MCUCR) 48 /\
    Z.testbit (Mcu.reg s' Mcu.MCUCR) 3 = Z.testbit (Mcu.reg s Mcu.MCUCR) 3 /\
    (forall r, Mcu.reg s' (Mcu.OCR r) = Mcu.reg s (Mcu.OCR r)) /\
    Mcu.interrupts s' = false /\
    Mcu.sleeping s' = true /\
    Mcu.pinb_writes s' = Mcu.pinb_writes s + 70000 /\
    Z.land (Mcu.reg s' Mcu.TCCR0B) 7 = 0 /\
    Z.land (Mcu.reg s' Mcu.TCCR1) 15 = 0 /\
    Z.land (Mcu.reg s' Mcu.TCCR0A) 192 = 0 /\
    Z.land (Mcu.reg s' Mcu.TCCR1) 48 = 0 /\
    Z.land (Mcu.reg s' Mcu.GTCCR) 48 = 0 /\
    Z.land (Mcu.reg s' Mcu.MCUCR) 48 = 48.
Proof.
  intros Hbytes Hfuel.
  destruct (teardown_closed fuel s Hbytes Hfuel)
    as (s' & Htd & H0B & H0A & H1 & HG & HD & HPB & HM & HM3 & Hocr & Hi & Hs & Hp).
  exists s'.
  repeat (split; [assumption |]).
  split; [rewrite H0B, <- Z.land_assoc; apply Z.land_0_r |].
  split; [rewrite H1, <- Z.land_assoc; apply Z.land_0_r |].
  split; [rewrite H0A, <- Z.land_assoc; apply Z.land_0_r |].
  split; [rewrite H1, <- Z.land_assoc; apply Z.land_0_r |].
  split; [rewrite HG, <- Z.land_assoc; apply Z.land_0_r |].
  rewrite HM, Z.land_lor_distr_l.
  change (Z.land 48 48) with 48.
  apply Z.bits_inj'. intros n Hn.
  rewrite Z.lor_spec, Z.land_spec.
  destruct (Z.testbit 48 n); [apply orb_true_r | rewrite andb_false_r; reflexivity].
Qed.

Lemma teardown_stops_everything_witness :
  Mcu.bytes (Mcu.mkState (fun _ => 255) 0 true false) /\
  exists s',
    Mcu.teardown (Z.to_nat 10000) (Mcu.mkState (fun _ => 255) 0 true false)
    = Ok s' /\
    Mcu.reg s' Mcu.TCCR1 = Z.land 255 192 /\
    Mcu.sleeping s' = true.
Proof.
  assert (Hb : Mcu.bytes (Mcu.mkState (fun _ => 255) 0 true false))
    by (intros r; unfold UChar.in_range; cbn; lia).
  split; [exact Hb |].
  destruct (teardown_stops_everything (Z.to_nat 10000)
              (Mcu.mkState (fun _ => 255) 0 true false) Hb ltac:(lia))
    as (s' & Hs & _ & _ & H1 & _ & _ & _ & _ & _ & _ & _ & Hsl & _).
  exists s'. split; [exact Hs | split; [exact H1 | exact Hsl]].
Defined.

Lemma bit_byte b :
  0 <= b < 8 -> Mcu.bit b = 2 ^ b /\ Z.land (Mcu.bit b) 255 = Mcu.bit b.
Proof.
  intros H.
  assert (C : b = 0 \/ b = 1 \/ b = 2 \/ b = 3 \/ b = 4 \/ b = 5 \/ b = 6 \/ b = 7)
    by lia.
  destruct C as [-> | [-> | [-> | [-> | [-> | [-> | [-> | ->]]]]]]];
    split; reflexivity.
Qed.

Lemma lor_mask_byte m1 m2 :
  Z.land m1 255 = m1 -> Z.land m2 255 = m2 -> Z.land (Z.lor m1 m2) 255 = Z.lor m1 m2.
Proof. intros H1 H2. rewrite Z.land_lor_distr_l, H1, H2. reflexivity. Qed.

Lemma lor_twice x m : Z.lor (Z.lor x m) m = Z.lor x m.
Proof. rewrite <- Z.lor_assoc, Z.lor_diag. reflexivity. Qed.

Ltac initialize_regs :=
  unfold Mcu.initialize;
  cbn [Mcu.reg Mcu.store Mcu.ioreg_eqb register_eqb].

(** X14.  [initialize] sets the bits it names in TCCR0A and TCCR0B and
    keeps the bits these registers had (it never clears one, so what the
    timer ends up doing depends on the state it starts from), it does not
    touch MCUCR, and running it a second time changes nothing. *)
Theorem initialize_keeps_timer0_bits (bits : Mcu.timer0_bits) s :
  Mcu.bytes s ->
  wf_bits bits ->
  Mcu.reg (Mcu.initialize bits s) Mcu.TCCR0A
  = Z.lor (Mcu.reg s Mcu.TCCR0A)
      (Z.lor (Z.lor (Z.lor (2 ^ Mcu.COM0A1 bits) (2 ^ Mcu.COM0A0 bits))
                (2 ^ Mcu.WGM01 bits))
         (2 ^ Mcu.WGM00 bits)) /\
  Mcu.reg (Mcu.initialize bits s) Mcu.TCCR0B
  = Z.lor (Mcu.reg s Mcu.TCCR0B) (2 ^ Mcu.CS01 bits) /\
  (forall n, Z.testbit (Mcu.reg s Mcu.TCCR0A) n = true ->
     Z.testbit (Mcu.reg (Mcu.initialize bits s) Mcu.TCCR0A) n = true) /\
  (forall n, Z.testbit (Mcu.reg s Mcu.TCCR0B) n = true ->
     Z.testbit (Mcu.reg (Mcu.initialize bits s) Mcu.TCCR0B) n = true) /\
  Mcu.reg (Mcu.initialize bits s) Mcu.MCUCR = Mcu.reg s Mcu.MCUCR /\
  (forall r, Mcu.reg (Mcu.initialize bits (Mcu.initialize bits s)) r
             = Mcu.reg (Mcu.initialize bits s) r).
Proof.
  intros Hbytes (H1 & H2 & H3 & H4 & H5).
  destruct (bit_byte _ H1) as [E1 B1]. destruct (bit_byte _ H2) as [E2 B2].
  destruct (bit_byte _ H3) as [E3 B3]. destruct (bit_byte _ H4) as [E4 B4].
  destruct (bit_byte _ H5) as [E5 B5].
  rewrite <- E1, <- E2, <- E3, <- E4, <- E5.
  set (m := Z.lor (Z.lor (Z.lor (Mcu.bit (Mcu.COM0A1 bits)) (Mcu.bit (Mcu.COM0A0 bits)))
                     (Mcu.bit (Mcu.WGM01 bits)))
              (Mcu.bit (Mcu.WGM00 bits))).
  assert (Bm : Z.land m 255 = m)
    by (unfold m; repeat apply lor_mask_byte; assumption).
  assert (EA : Mcu.reg (Mcu.initialize bits s) Mcu.TCCR0A
               = Z.lor (Mcu.reg s Mcu.TCCR0A) m).
  { initialize_regs. fold m. apply wrap_lor_mask; [apply Hbytes | exact Bm]. }
  assert (EB : Mcu.reg (Mcu.initialize bits s) Mcu.TCCR0B
               = Z.lor (Mcu.reg s Mcu.TCCR0B) (Mcu.bit (Mcu.CS01 bits))).
  { initialize_regs. apply wrap_lor_mask; [apply Hbytes | exact B5]. }
  split; [exact EA |]. split; [exact EB |].
  split; [intros n Hn; rewrite EA, Z.lor_spec, Hn; reflexivity |].
  split; [intros n Hn; rewrite EB, Z.lor_spec, Hn; reflexivity |].
  split; [initialize_regs; reflexivity |].
  intros r.
  destruct r as [| | | | | | | | | | | | r]; initialize_regs; try reflexivity.
  - fold m. rewrite (wrap_lor_mask _ m (Hbytes Mcu.TCCR0A) Bm), lor_twice.
    apply wrap_lor_mask; [apply Hbytes | exact Bm].
  - rewrite (wrap_lor_mask _ _ (Hbytes Mcu.TCCR0B) B5), lor_twice.
    apply wrap_lor_mask; [apply Hbytes | exact B5].
  - destruct r; reflexivity.
Qed.

Lemma initialize_keeps_timer0_bits_witness :
  wf_bits tiny25_bits /\
  forall s, Mcu.bytes s ->
    Mcu.reg (Mcu.initialize tiny25_bits s) Mcu.TCCR0A
    = Z.lor (Mcu.reg s Mcu.TCCR0A) 195 /\
    Mcu.reg (Mcu.initialize tiny25_bits s) Mcu.TCCR0B
    = Z.lor (Mcu.reg s Mcu.TCCR0B) 2.
Proof.
  assert (Hb : wf_bits tiny25_bits) by (unfold wf_bits; cbn; lia).
  split; [exact Hb |].
  intros s Hs.
  destruct (initialize_keeps_timer0_bits tiny25_bits s Hs Hb) as (HA & HB & _).
  split; [exact HA | exact HB].
Defined.

(** ** The player on the registers *)

Lemma last_cons_default {A} (l : list A) (v d : A) :
  List.last (v :: l) d = List.last l v.
Proof.
  revert v d. induction l as [| a l IH]; intros v d; [reflexivity |].
  change (List.last (v :: a :: l) d) with (List.last (a :: l) d).
  rewrite (IH a d), (IH a v). reflexivity.
Qed.

Lemma ticks_cons ev t :
  ticks (ev :: t) = (if is_delay ev then 1 else 0) + ticks t.
Proof.
  change (ev :: t) with ([ev] ++ t). rewrite ticks_app.
  destruct ev; reflexivity.
Qed.

Lemma store_bytes r v s : Mcu.bytes s -> Mcu.bytes (Mcu.store r v s).
Proof.
  intros Hb q. cbn [Mcu.store Mcu.reg].
  destruct (Mcu.ioreg_eqb r q); [apply uchar_wrap_range | apply Hb].
Qed.

Lemma exec_player (fuel : nat) bits t :
  Forall player_event t -> 100 <= Z.of_nat fuel ->
  forall s, exists s',
    Mcu.exec fuel bits t s = Ok s' /\
    Mcu.pinb_writes s' = Mcu.pinb_writes s + 700 * ticks t /\
    (forall r, Mcu.reg s' (Mcu.OCR r)
               = List.last (written r t) (Mcu.reg s (Mcu.OCR r))) /\
    (forall q, match q with
               | Mcu.OCR _ => True
               | _ => Mcu.reg s' q = Mcu.reg s q
               end) /\
    Mcu.interrupts s' = Mcu.interrupts s /\
    Mcu.sleeping s' = Mcu.sleeping s /\
    (Mcu.bytes s -> Mcu.bytes s').
Proof.
  intros Ht Hfuel. induction Ht as [| ev t Hev Ht IH]; intros s.
  - exists s. split; [reflexivity |]. split; [cbn; lia |].
    split; [intros r; reflexivity |]. split; [intros q; destruct q; auto |].
    split; [reflexivity |]. split; [reflexivity | auto].
  - destruct ev as [r v | us | |]; cbn [player_event] in Hev; try contradiction.
    + destruct (IH (Mcu.store (Mcu.OCR r) v s))
        as (s' & Hexec & Hpinb & Hocr & Hother & Hint & Hsl & Hby).
      exists s'. cbn [Mcu.exec Mcu.exec_event bind].
      split; [exact Hexec |]. split; [| split; [| split; [| split; [| split]]]].
      * rewrite Hpinb, ticks_cons. reflexivity.
      * intros r0. rewrite Hocr.
        cbn [Mcu.store Mcu.reg Mcu.ioreg_eqb].
        rewrite (uchar_wrap_id v Hev).
        unfold written. cbn [flat_map].
        fold (written r0 t).
        destruct r, r0; cbn [register_eqb app];
          rewrite ?last_cons_default; reflexivity.
      * intros q. specialize (Hother q). destruct q; auto.
      * exact Hint.
      * exact Hsl.
      * intros Hb. apply Hby. apply store_bytes. exact Hb.
    + subst us.
      destruct (IH (pinb_written 700 s))
        as (s' & Hexec & Hpinb & Hocr & Hother & Hint & Hsl & Hby).
      exists s'. cbn [Mcu.exec Mcu.exec_event].
      rewrite delay_ten_us_closed by (unfold ULong.in_range; lia).
      cbn [bind]. split; [exact Hexec |].
      split; [| split; [| split; [| split; [| split]]]].
      * rewrite Hpinb, ticks_cons. cbn [pinb_written Mcu.pinb_writes is_delay]. lia.
      * intros r0. rewrite Hocr. reflexivity.
      * intros q. specialize (Hother q). destruct q; auto.
      * exact Hint.
      * exact Hsl.
      * intros Hb. apply Hby. exact Hb.
Qed.

Lemma player_element F H prev target :
  0 <= F -> wf_rgb prev -> wf_rgb target ->
  Forall player_event (element_trace F H prev target).
Proof.
  intros HF (Hpr & Hpg & Hpb) (Htr & Htg & Htb).
  assert (Hleds : Forall player_event (leds_trace target))
    by (constructor; [exact Htr | constructor; [exact Htb |
          constructor; [exact Htg | constructor]]]).
  unfold element_trace.
  apply Forall_app. split; [destruct (F =? 0); [exact Hleds | constructor] |].
  apply Forall_app. split; [| apply Forall_app; split; [exact Hleds |]].
  - unfold fade_trace. apply Forall_flat_map. apply Forall_forall.
    intros k Hk. apply zseq_In in Hk.
    assert (Hb : forall p t, UChar.in_range p -> UChar.in_range t ->
                   UChar.in_range (ramp F p t k)).
    { intros p t Hp Ht'. pose proof (ramp_between F p t k ltac:(lia)).
      unfold UChar.in_range in *. lia. }
    unfold fade_frame.
    constructor; [apply Hb; assumption |].
    constructor; [apply Hb; assumption |].
    constructor; [apply Hb; assumption |].
    constructor; [reflexivity | constructor].
  - unfold hold_trace. apply Forall_forall. intros ev Hev.
    apply repeat_spec in Hev. subst ev. reflexivity.
Qed.

(** X15.  On the registers, playing an entry leaves the three compare
    registers at the target levels of the entry and every other register,
    the interrupt flag and the sleep state as they were; its delays execute
    the write to PINB 700 times per tick. *)
Theorem entry_on_registers (fuel : nat) bits tab index e s :
  playable fuel tab index e ->
  100 <= Z.of_nat fuel ->
  exists t s',
    sendrgbElement fuel tab index = Ok t /\
    Mcu.exec fuel bits t s = Ok s' /\
    Mcu.reg s' (Mcu.OCR OCR1A) = 255 - red e /\
    Mcu.reg s' (Mcu.OCR OCR1B) = 255 - blue e /\
    Mcu.reg s' (Mcu.OCR OCR0A) = 255 - green e /\
    Mcu.pinb_writes s'
    = Mcu.pinb_writes s + 700 * (fadeTime e + holdTime e) /\
    (forall q, match q with
               | Mcu.OCR _ => True
               | _ => Mcu.reg s' q = Mcu.reg s q
               end) /\
    Mcu.interrupts s' = Mcu.interrupts s /\
    Mcu.sleeping s' = Mcu.sleeping s.
Proof.
  intros Hplay Hfuel.
  destruct (playable_levels _ _ _ _ Hplay) as [Hprev Htarget].
  assert (Hwf : 0 <= fadeTime e /\ 0 <= holdTime e)
    by (destruct Hplay as (_ & _ & _ & (H1 & H2 & _) & _); lia).
  destruct Hwf as [HF HH].
  destruct (exec_player fuel bits _
              (player_element (fadeTime e) (holdTime e) _ _ HF Hprev Htarget)
              Hfuel s)
    as (s' & Hexec & Hpinb & Hocr & Hother & Hint & Hsl & _).
  exists (element_trace (fadeTime e) (holdTime e) (previous tab index) (inverted e)).
  exists s'.
  split; [apply playable_closed; exact Hplay |].
  split; [exact Hexec |].
  assert (Hlast : forall r, Mcu.reg s' (Mcu.OCR r) = level r (inverted e)).
  { intros r. rewrite Hocr, written_element, !app_assoc. apply last_last. }
  split; [exact (Hlast OCR1A) |]. split; [exact (Hlast OCR1B) |].
  split; [exact (Hlast OCR0A) |].
  split; [rewrite Hpinb, ticks_element by assumption; reflexivity |].
  split; [exact Hother |]. split; assumption.
Qed.

Lemma entry_on_registers_witness :
  playable 500 lightTab 1 (mkElement 500 500 255 0 0) /\
  forall s, exists t s',
    sendrgbElement 500 lightTab 1 = Ok t /\
    Mcu.exec 500 tiny25_bits t s = Ok s' /\
    Mcu.reg s' (Mcu.OCR OCR1A) = 0 /\
    Mcu.pinb_writes s' = Mcu.pinb_writes s + 700 * (500 + 500).
Proof.
  assert (Hplay : playable 500 lightTab 1 (mkElement 500 500 255 0 0))
    by play_lightTab.
  split; [exact Hplay |].
  intros s.
  destruct (entry_on_registers 500 tiny25_bits lightTab 1
              (mkElement 500 500 255 0 0) s Hplay ltac:(lia))
    as (t & s' & Ht & Hexec & H1 & _ & _ & Hp & _).
  exists t, s'. split; [exact Ht |]. split; [exact Hexec |].
  split; [exact H1 | exact Hp].
Defined.

(** ** The whole program on the registers *)

Lemma exec_app (fuel : nat) bits t1 t2 s :
  Mcu.exec fuel bits (t1 ++ t2) s
  = bind (Mcu.exec fuel bits t1 s) (fun s1 => Mcu.exec fuel bits t2 s1).
Proof.
  revert s. induction t1 as [| ev t1 IH]; intros s; [reflexivity |].
  cbn [app Mcu.exec].
  destruct (Mcu.exec_event fuel bits ev s) as [s1 | |]; cbn [bind];
    [apply IH | reflexivity | reflexivity].
Qed.

Lemma initialize_bytes bits s : Mcu.bytes s -> Mcu.bytes (Mcu.initialize bits s).
Proof.
  intros Hb. unfold Mcu.initialize. cbv zeta.
  repeat apply store_bytes. exact Hb.
Qed.

Lemma player_pass tab body last rest :
  tab = body ++ last :: rest ->
  Forall wf_element body ->
  Forall wf_colours tab ->
  Forall player_event (pass_trace tab (length body)).
Proof.
  intros Htab Hwf Hcol. unfold pass_trace.
  apply Forall_flat_map, Forall_forall. intros i Hi.
  apply zseq_In in Hi.
  destruct (nth_error body (Z.to_nat i)) as [e |] eqn:He;
    [| apply nth_error_None in He; lia].
  assert (Hread : pgm_read tab i = Ok e).
  { apply pgm_read_nth. split; [lia |].
    rewrite Htab, nth_error_app1 by lia. exact He. }
  rewrite Forall_forall in Hwf.
  destruct (Hwf e (nth_error_In _ _ He)) as (HF & _ & Hc).
  unfold entry_trace. rewrite Hread.
  apply player_element; [lia | apply previous_range | apply inverted_range];
    assumption.
Qed.

Lemma written_pass_ends r tab body e last rest :
  tab = (body ++ [e]) ++ last :: rest ->
  exists W,
    written r (pass_trace tab (length (body ++ [e])))
    = W ++ [level r (inverted e)].
Proof.
  intros Htab.
  assert (Hread : pgm_read tab (Z.of_nat (length body)) = Ok e).
  { apply pgm_read_nth. split; [lia |].
    rewrite Nat2Z.id, Htab, <- !app_assoc, nth_error_app2 by lia.
    rewrite Nat.sub_diag. reflexivity. }
  rewrite length_app. cbn [length]. rewrite Nat.add_1_r.
  rewrite pass_trace_snoc, written_app.
  unfold entry_trace. rewrite Hread, written_element.
  eexists. rewrite !app_assoc. reflexivity.
Qed.

Lemma concat_repeat_snoc {A} (p : list A) (n : nat) :
  concat (repeat p (S n)) = concat (repeat p n) ++ p.
Proof.
  induction n as [| n IH]; [cbn; rewrite app_nil_r; reflexivity |].
  cbn [repeat concat] in *.
  rewrite IH at 1. rewrite app_assoc, IH. reflexivity.
Qed.

Lemma ticks_repeat p (n : nat) :
  ticks (concat (repeat p n)) = Z.of_nat n * ticks p.
Proof.
  induction n as [| n IH]; [reflexivity |].
  cbn [repeat concat]. rewrite ticks_app, IH. lia.
Qed.

(** X16.  The whole program, on the registers.  For any table with an end
    marker and any bit numbers, [main] returns; it leaves the CPU asleep
    with interrupts off, both timers without clock, the outputs
    disconnected, all pins inputs with pull-ups, and the compare registers
    at the inverted colour of the last entry played; its delays have
    executed the write to PINB 700 times for every tick of the 360 passes
    and 70000 times in the shut-down. *)
Theorem main_on_registers (fuel : nat) bits
    (tab body rest : list rgbElement) (e last : rgbElement) s :
  tab = (body ++ [e]) ++ last :: rest ->
  is_last last = true ->
  Forall wf_element (body ++ [e]) ->
  Forall wf_colours tab ->
  Forall (fits fuel) (body ++ [e]) ->
  Forall (fun e => is_last e = false) (tl (body ++ [e])) ->
  Z.of_nat (length (body ++ [e])) <= Int16.INT_MAX ->
  (length (body ++ [e]) <= fuel)%nat ->
  10000 <= Z.of_nat fuel ->
  Mcu.bytes s ->
  exists t s',
    main fuel tab = Ok t /\
    Mcu.exec fuel bits t s = Ok s' /\
    Mcu.sleeping s' = true /\
    Mcu.interrupts s' = false /\
    Z.land (Mcu.reg s' Mcu.TCCR0B) 7 = 0 /\
    Z.land (Mcu.reg s' Mcu.TCCR0A) 192 = 0 /\
    Mcu.reg s' Mcu.TCCR1 = 64 /\
    Mcu.reg s' Mcu.GTCCR = 64 /\
    Mcu.reg s' Mcu.DDRB = 0 /\
    Mcu.reg s' Mcu.PORTB = 255 /\
    (forall r, Mcu.reg s' (Mcu.OCR r) = level r (inverted e)) /\
    Mcu.pinb_writes s'
    = Mcu.pinb_writes s
      + 700 * (360 * total_duration (body ++ [e])) + 70000.
Proof.
  intros Htab Hlast Hwf Hcol Hfits Hun Hmax Hfuel Hfuel' Hbytes.
  assert (Hne : body ++ [e] <> []) by (destruct body; discriminate).
  assert (Hmain : main fuel tab
                  = Ok ([Initialize]
                          ++ concat (repeat (pass_trace tab (length (body ++ [e]))) 360)
                          ++ [Teardown])).
  { unfold main.
    rewrite (count_loop_closed fuel tab (body ++ [e]) rest last); try assumption.
    cbn [bind snd]. reflexivity. }
  set (P := concat (repeat (pass_trace tab (length (body ++ [e]))) 360)) in *.
  assert (HP : Forall player_event P).
  { unfold P. apply Forall_concat, Forall_forall. intros p Hp.
    apply repeat_spec in Hp. subst p.
    apply (player_pass tab (body ++ [e]) last rest); assumption. }
  destruct (exec_player fuel bits P HP ltac:(lia) (Mcu.initialize bits s))
    as (s2 & Hexec & Hpinb & Hocr & Hother & Hint & Hsl & Hby).
  destruct (teardown_closed fuel s2 (Hby (initialize_bytes bits s Hbytes)) Hfuel')
    as (s3 & Htd & H0B & H0A & H1 & HG & HD & HPB & _ & _ & Hocr3 & Hi3 & Hs3 & Hp3).
  exists ([Initialize] ++ P ++ [Teardown]), s3.
  split; [exact Hmain |]. split.
  { change ([Initialize] ++ P ++ [Teardown]) with (Initialize :: (P ++ [Teardown])).
    cbn [Mcu.exec Mcu.exec_event bind].
    rewrite exec_app, Hexec. cbn [bind Mcu.exec Mcu.exec_event].
    rewrite Htd. reflexivity. }
  split; [exact Hs3 |]. split; [exact Hi3 |].
  split; [rewrite H0B, <- Z.land_assoc; apply Z.land_0_r |].
  split; [rewrite H0A, <- Z.land_assoc; apply Z.land_0_r |].
  split.
  { rewrite H1. pose proof (Hother Mcu.TCCR1) as E. cbn beta iota in E.
    rewrite E. initialize_regs. reflexivity. }
  split.
  { rewrite HG. pose proof (Hother Mcu.GTCCR) as E. cbn beta iota in E.
    rewrite E. initialize_regs. reflexivity. }
  split; [exact HD |]. split; [exact HPB |].
  split.
  { intros r. rewrite Hocr3, Hocr.
    destruct (written_pass_ends r tab body e last rest Htab) as [W HW].
    assert (EP : P = concat (repeat (pass_trace tab (length (body ++ [e]))) 359)
                       ++ pass_trace tab (length (body ++ [e])))
      by (unfold P; apply (concat_repeat_snoc _ 359)).
    rewrite EP, written_app, HW, app_assoc.
    apply last_last. }
  rewrite Hp3, Hpinb. unfold P at 1.
  rewrite ticks_repeat,
    (pass_ticks tab (body ++ [e]) last rest Htab Hwf).
  cbn [Mcu.initialize]. change (Z.of_nat 360) with 360.
  assert (E : Mcu.pinb_writes (Mcu.initialize bits s) = Mcu.pinb_writes s)
    by reflexivity.
  rewrite E. ring.
Qed.

Lemma main_on_registers_witness :
  Mcu.bytes (Mcu.mkState (fun _ => 0) 0 true false) /\
  exists t s',
    main (Z.to_nat 10000) long_table = Ok t /\
    Mcu.exec (Z.to_nat 10000) tiny25_bits t
      (Mcu.mkState (fun _ => 0) 0 true false) = Ok s' /\
    Mcu.sleeping s' = true /\
    (forall r, Mcu.reg s' (Mcu.OCR r) = level r (mkRgb 0 255 255)) /\
    Mcu.pinb_writes s' = 0 + 700 * (360 * 7) + 70000.
Proof.
  assert (Hb : Mcu.bytes (Mcu.mkState (fun _ => 0) 0 true false))
    by (intros r; unfold UChar.in_range; cbn; lia).
  split; [exact Hb |].
  destruct (main_on_registers (Z.to_nat 10000) tiny25_bits long_table
              [mkElement 3 2 0 255 255] [mkElement 1 1 9 9 9; mkElement 0 0 0 0 0]
              (mkElement 2 0 255 0 0) (mkElement 0 0 0 0 0)
              (Mcu.mkState (fun _ => 0) 0 true false)
              eq_refl eq_refl
              ltac:(check_table) ltac:(check_table) ltac:(check_table)
              ltac:(check_table)
              ltac:(cbn [length app]; unfold Int16.INT_MAX; lia)
              ltac:(cbn [length app]; lia) ltac:(lia) Hb)
    as (t & s' & Hmain & Hexec & Hsl & _ & _ & _ & _ & _ & _ & _ & Hocr & Hp).
  exists t, s'.
  split; [exact Hmain |]. split; [exact Hexec |]. split; [exact Hsl |].
  split; [exact Hocr | exact Hp].
Defined.

(** X17.  An entry whose fade time is [INT_MAX] cannot be played: every
    value of the counter is at most [INT_MAX], so the test of the fade loop
    never fails and [sendrgbElement] does not return, whatever the fuel. *)
Theorem longest_fade_never_ends (fuel : nat) tab index e :
  pgm_read tab index = Ok e ->
  index <= Int16.INT_MAX ->
  fadeTime e = Int16.INT_MAX ->
  sendrgbElement fuel tab index = OutOfFuel.
Proof.
  intros Hread Hidx HF.
  assert (Hidx0 : 0 <= index) by (apply pgm_read_nth in Hread; tauto).
  assert (H1 : Int16.in_range 1)
    by (unfold Int16.in_range, Int16.INT_MIN, Int16.INT_MAX; lia).
  unfold sendrgbElement. rewrite Hread. cbn [bind]. rewrite HF.
  destruct (Z.eqb_spec index 0) as [-> | Hne]; cbn [negb bind].
  - rewrite fade_loop_at_INT_MAX by exact H1. reflexivity.
  - destruct (pgm_read_before tab index e Hread ltac:(lia)) as [p Hp].
    unfold Int16.sub. rewrite int16_wrap_id
      by (unfold Int16.in_range, Int16.INT_MIN, Int16.INT_MAX in *; lia).
    rewrite Hp. cbn [bind].
    rewrite fade_loop_at_INT_MAX by exact H1. reflexivity.
Qed.

Lemma longest_fade_never_ends_witness :
  sendrgbElement 50 [mkElement 32767 0 1 2 3] 0 = OutOfFuel.
Proof.
  exact (longest_fade_never_ends 50 [mkElement 32767 0 1 2 3] 0
           (mkElement 32767 0 1 2 3) eq_refl
           ltac:(unfold Int16.INT_MAX; lia) eq_refl).
Defined.
